(** * The npm dependency-tree service ([api/api.go]) as a shallow embedding

    The Go package [api] serves [/package/{package}/{version}]: it resolves
    the version constraint of a package against the npm registry, fetches the
    manifest of the chosen version and recurses into every dependency.

    The code relies on three foreign libraries whose sources are not part of
    the repository: [Masterminds/semver], [encoding/json] and [sort].  They
    appear here as interfaces (type classes); the functions of [api.go] are
    written over these interfaces, statement by statement.  Concrete
    instances, used to run the functions on example registries, live in
    [Module Example] further down.

    Goroutines.  [resolveDependencies] starts one goroutine per dependency
    and [packageHandler] waits for all of them ([wg.Wait]).  A goroutine
    writes only the node it was handed ([pkg.Version], [pkg.Dependencies]),
    so the tree that exists after the join, and the multiset of registry
    calls, do not depend on the schedule.  The embedding runs the children
    depth first at the place where they are spawned; only the order of the
    call log is particular to this choice.  Log output ([errorLogger],
    [debugLogger]) is not modelled. *)

From Stdlib Require Import ZArith Lia Ascii DecimalString.
From stdpp Require Import gmap strings list fin_maps sorting.

Set Warnings "-register-all".

(** ** Data *)

(** Go's [error] values, by the place that creates them. *)
Inductive error : Type :=
  | errors_New (text : string)      (* errors.New(text) *)
  | semver_error (text : string)    (* returned by semver.NewConstraint *)
  | http_error (text : string)      (* returned by http.Get *)
  | io_error (text : string)        (* returned by io.ReadAll *)
  | json_error (text : string).     (* returned by json.Unmarshal / json.MarshalIndent *)

(** [npmPackageResponse]: one manifest as the registry sends it. *)
Record npmPackageResponse : Type := mkResponse {
  rName : string;
  rVersion : string;
  rDependencies : gmap string string
}.

(** [npmPackageMetaResponse]: the versions a package has. *)
Record npmPackageMetaResponse : Type := mkMeta {
  Versions : gmap string npmPackageResponse
}.

(** [NpmPackageVersion]: a node of the tree that is sent back. *)
Inductive NpmPackageVersion : Type := mkNode {
  Name : string;
  Version : string;
  Dependencies : gmap string NpmPackageVersion
}.

(** Go's zero values ([var parsed npmPackageResponse]). *)
Definition zero_npmPackageResponse : npmPackageResponse := mkResponse EmptyString EmptyString ∅.
Definition zero_npmPackageMetaResponse : npmPackageMetaResponse := mkMeta ∅.

(** What [http.Get] followed by [io.ReadAll(resp.Body)] can give. *)
Inductive HttpResult : Type :=
  | GetFailed (e : error)           (* http.Get returned an error *)
  | ReadFailed (e : error)          (* io.ReadAll returned an error *)
  | Body (bytes : string).          (* the bytes of the body *)

(** ** The foreign libraries *)

(** [github.com/Masterminds/semver/v3]. *)
Class Semver : Type := {
  SemVersion : Type;
  Constraints : Type;
  NewVersion : string -> option SemVersion;        (* None: parse error *)
  NewConstraint : string -> Constraints + string;  (* inr: the error text *)
  Check : Constraints -> SemVersion -> bool;
  LessThan : SemVersion -> SemVersion -> bool;
  VersionString : SemVersion -> string             (* the String method *)
}.

(** The Go runtime: the order in which [range] walks a map, and [sort.Sort]
    on a [semver.Collection], whose [Less i j] is [c[i].LessThan(c[j])]. *)
Class GoRuntime `{SV : Semver} : Type := {
  range : forall {A : Type}, gmap string A -> list (string * A);
  sort_Sort : list SemVersion -> list SemVersion
}.

(** What the documentation of these libraries promises. *)
Class GoRuntimeLaws `{RT : GoRuntime} : Prop := {
  (* a version never precedes itself *)
  LessThan_irrefl : forall v, LessThan v v = false;
  (* range visits every entry of the map once, in some order *)
  range_perm : forall A (m : gmap string A), range m ≡ₚ map_to_list m;
  (* sort.Sort rearranges the slice ... *)
  sort_perm : forall l, sort_Sort l ≡ₚ l;
  (* ... so that no element is less than one standing before it *)
  sort_sorted : forall l i j x y,
    sort_Sort l !! i = Some x -> sort_Sort l !! j = Some y ->
    (i < j)%nat -> LessThan y x = false
}.

(** [encoding/json] at the three types the package uses it with.  Unmarshal
    fills the value it is given and returns an optional error. *)
Class Json : Type := {
  json_Valid : string -> bool;
  Unmarshal_meta :
    string -> npmPackageMetaResponse -> npmPackageMetaResponse * option error;
  Unmarshal_package :
    string -> npmPackageResponse -> npmPackageResponse * option error;
  MarshalIndent : NpmPackageVersion -> string + error
}.

(** [json.Unmarshal] checks the syntax of the input before it stores
    anything: on invalid JSON it returns a [SyntaxError] and leaves the
    destination as it was. *)
Class JsonLaws `{JS : Json} : Prop := {
  Unmarshal_package_invalid : forall data v,
    json_Valid data = false ->
    exists e, Unmarshal_package data v = (v, Some e)
}.

(** The registry, seen through [http.Get]: what a URL answers. *)
Class Registry : Type := {
  http_Get : string -> HttpResult
}.

(** ** Process state and the monad of tasks *)

(** The package-level variables of [api.go] ([wg] apart: in a run to
    completion every [wg.Add(1)] is matched by the [defer wg.Done()] of the
    goroutine it announces), and the log of the URLs requested so far.
    [rootPkg] is a pointer in the source; the field holds the node it
    leads to as the handler sees it, that is before the goroutines start
    and after they have joined, and says nothing about the node while
    [resolveDependencies] is writing it. *)
Record Globals : Type := mkGlobals {
  lastRequest : gmap string string;
  goroutineCount : Z;                       (* WaitGroupCount.count *)
  rootPkg : option NpmPackageVersion;
  fetches : list string                     (* URLs passed to http.Get *)
}.

Definition set_lastRequest (f : gmap string string -> gmap string string)
    (g : Globals) : Globals :=
  mkGlobals (f (lastRequest g)) (goroutineCount g) (rootPkg g) (fetches g).
Definition set_goroutineCount (f : Z -> Z) (g : Globals) : Globals :=
  mkGlobals (lastRequest g) (f (goroutineCount g)) (rootPkg g) (fetches g).
Definition set_rootPkg (p : option NpmPackageVersion) (g : Globals) : Globals :=
  mkGlobals (lastRequest g) (goroutineCount g) p (fetches g).
Definition set_fetches (f : list string -> list string) (g : Globals) : Globals :=
  mkGlobals (lastRequest g) (goroutineCount g) (rootPkg g) (f (fetches g)).

(** A task reads and writes the globals; [None] means that the recursion
    budget of the embedding was used up before the task returned. *)
Definition Task (A : Type) : Type := Globals -> option (A * Globals).

Definition ret {A} (a : A) : Task A := fun g => Some (a, g).
Definition bind {A B} (m : Task A) (k : A -> Task B) : Task B :=
  fun g => match m g with
           | Some (a, g') => k a g'
           | None => None
           end.
Definition out_of_fuel {A} : Task A := fun _ => None.
Definition modify (f : Globals -> Globals) : Task unit := fun g => Some (tt, f g).
Definition gets {A} (f : Globals -> A) : Task A := fun g => Some (f g, g).

Notation "'let*' x ':=' m 'in' k" := (bind m (fun x => k))
  (at level 10, x pattern, m at level 100, k at level 200, only parsing).
Notation "m ;; k" := (bind m (fun _ => k))
  (at level 100, k at level 200, right associativity, only parsing).

(** [WaitGroupCount] ([wg_goroutine_counter.go]): an [int64] changed with
    [atomic.AddInt64], which wraps around. *)
Definition int64_wrap (z : Z) : Z := ((z + 2 ^ 63) mod 2 ^ 64 - 2 ^ 63)%Z.
Definition WaitGroupCount_Add (delta : Z) : Task unit :=
  modify (set_goroutineCount (fun c => int64_wrap (c + delta))).
Definition WaitGroupCount_Done : Task unit :=
  modify (set_goroutineCount (fun c => int64_wrap (c + -1))).
Definition WaitGroupCount_GetCount : Task Z := gets goroutineCount.

(** ** The functions of [api.go] *)

Section Api.
Context `{SV : Semver} `{RT : !GoRuntime} `{JS : Json}.

(** [http.Get(url)] and [io.ReadAll(resp.Body)], with the call logged. *)
Definition get `{RG : Registry} (url : string) : Task HttpResult :=
  modify (set_fetches (fun l => l ++ [url])) ;; ret (http_Get url).

Definition fetchPackage `{RG : Registry} (name version : string)
    : Task (npmPackageResponse + error) :=
  let* resp := get ("https://registry.npmjs.org/" +:+ name +:+ "/" +:+ version) in
  match resp with
  | GetFailed err => ret (inr err)
  | ReadFailed err => ret (inr err)
  | Body body =>
      (* _ = json.Unmarshal(body, &parsed) *)
      let parsed := fst (Unmarshal_package body zero_npmPackageResponse) in
      ret (inl parsed)
  end.

Definition fetchPackageMeta `{RG : Registry} (p : string)
    : Task (npmPackageMetaResponse + error) :=
  let* resp := get ("https://registry.npmjs.org/" +:+ p) in
  match resp with
  | GetFailed err => ret (inr err)
  | ReadFailed err => ret (inr err)
  | Body body =>
      match Unmarshal_meta body zero_npmPackageMetaResponse with
      | (_, Some err) => ret (inr err)
      | (parsed, None) => ret (inl parsed)
      end
  end.

(** The loop of [filterCompatibleVersions] over the version strings in
    the order [range] yields them; [compatible] starts as the nil slice. *)
Definition filterLoop (constraint : Constraints) (keys : list string)
    : list SemVersion :=
  foldl (fun compatible version =>
           match NewVersion version with
           | None => compatible                               (* continue *)
           | Some semVer =>
               if Check constraint semVer
               then compatible ++ [semVer]
               else compatible
           end) [] keys.

Definition filterCompatibleVersions (constraint : Constraints)
    (pkgMeta : npmPackageMetaResponse) : list SemVersion :=
  filterLoop constraint (range (Versions pkgMeta)).*1.

(** [versions] is never nil where the package calls this function
    ([fetchPackageMeta] returns [&parsed] with a nil error), so the pointer
    is taken as the value it points to. *)
Definition highestCompatibleVersion (constraintStr : string)
    (versions : npmPackageMetaResponse) : string + error :=
  match NewConstraint constraintStr with
  | inr text => inr (semver_error text)
  | inl constraint =>
      let filtered := filterCompatibleVersions constraint versions in
      if (length filtered =? 0)%nat
      then inr (errors_New "no compatible versions found")
      else
        let filtered := sort_Sort filtered in
        match filtered !! (length filtered - 1)%nat with
        | Some v => inl (VersionString v)
        | None => inr (errors_New "index out of range")    (* not reached *)
        end
  end.

Definition set_Version (v : string) (pkg : NpmPackageVersion) :=
  mkNode (Name pkg) v (Dependencies pkg).
Definition set_Dependency (k : string) (dep : NpmPackageVersion)
    (pkg : NpmPackageVersion) :=
  mkNode (Name pkg) (Version pkg) (<[k := dep]> (Dependencies pkg)).

(** The [for ... range npmPkg.Dependencies] loop of [resolveDependencies].
    [resolve] is the goroutine body; the entry stored under
    [dependencyName] is the pointer [dep], so after the join it shows the
    node as the goroutine left it. *)
Fixpoint dependencyLoop
    (resolve : NpmPackageVersion -> string -> Task NpmPackageVersion)
    (deps : list (string * string)) (pkg : NpmPackageVersion)
    : Task NpmPackageVersion :=
  match deps with
  | [] => ret pkg
  | (dependencyName, dependencyVersionConstraint) :: rest =>
      let dep := mkNode dependencyName dependencyVersionConstraint ∅ in
      let pkg := set_Dependency dependencyName dep pkg in
      if (0 <? size (Dependencies pkg))%nat
      then
        let* dep' := resolve dep dependencyVersionConstraint in
        dependencyLoop resolve rest (set_Dependency dependencyName dep' pkg)
      else dependencyLoop resolve rest pkg
  end.

(** [resolveDependencies(pkg, versionConstraint)]: the node [pkg] points
    to goes in, the node as the call (and its goroutines) left it comes
    out.  [fuel] bounds the depth of the recursion. *)
Fixpoint resolveDependencies `{RG : Registry} (fuel : nat)
    (pkg : NpmPackageVersion) (versionConstraint : string)
    : Task NpmPackageVersion :=
  match fuel with
  | O => out_of_fuel
  | S fuel =>
      WaitGroupCount_Add 1 ;;
      let* r := fetchPackageMeta (Name pkg) in
      match r with
      | inr _ => ret pkg
      | inl pkgMeta =>
          match highestCompatibleVersion versionConstraint pkgMeta with
          | inr _ => ret pkg
          | inl concreteVersion =>
              let pkg := set_Version concreteVersion pkg in
              let* r := fetchPackage (Name pkg) (Version pkg) in
              match r with
              | inr _ => ret pkg
              | inl npmPkg =>
                  let* pkg := dependencyLoop (resolveDependencies fuel)
                                (range (rDependencies npmPkg)) pkg in
                  WaitGroupCount_Add (-1) ;;
                  ret pkg
              end
          end
      end
  end.

(** [getCachedDeps] is never called (its only call is commented out,
    "NOT WORKING ATM"), and its assignment [cachedDeps = dep] changes a
    parameter of its own: it is left out. *)

(** The request as the handler reads it: [r.RequestURI] and
    [mux.Vars(r)]. *)
Record Request : Type := mkRequest {
  RequestURI : string;
  Vars : gmap string string
}.

(** The [http.ResponseWriter]: the header map, the status code once
    [WriteHeader] was called, and the bytes written. *)
Record ResponseWriter : Type := mkWriter {
  Header : gmap string string;
  Status : option Z;
  Written : string
}.

Definition newResponseWriter : ResponseWriter := mkWriter ∅ None EmptyString.
Definition Header_Set (k v : string) (w : ResponseWriter) : ResponseWriter :=
  mkWriter (<[k := v]> (Header w)) (Status w) (Written w).
Definition WriteHeader (code : Z) (w : ResponseWriter) : ResponseWriter :=
  match Status w with
  | Some _ => w                                      (* superfluous call *)
  | None => mkWriter (Header w) (Some code) (Written w)
  end.
Definition Write (bytes : string) (w : ResponseWriter) : ResponseWriter :=
  let w := WriteHeader 200 w in
  mkWriter (Header w) (Status w) (Written w +:+ bytes).

(** [New()]: the counter starts at zero and the cache empty. *)
Definition New : Task unit :=
  modify (set_goroutineCount (fun _ => 0%Z)) ;;
  modify (set_lastRequest (fun _ => ∅)).

(** [packageHandler(w, r)].  The first component of the inner result is
    [toWrite]; [inr w] is an early [return] with the writer as it stands. *)
Definition packageHandler `{RG : Registry} (fuel : nat) (w : ResponseWriter)
    (r : Request) : Task ResponseWriter :=
  let* cache := gets lastRequest in
  let* toWrite :=
    match cache !! RequestURI r with
    | Some cached => ret (inl cached)
    | None =>
        match Vars r !! "package" with
        | None => ret (inr w)
        | Some pkgName =>
            match Vars r !! "version" with
            | None => ret (inr w)
            | Some pkgVersion =>
                let root := mkNode pkgName pkgVersion ∅ in
                modify (set_rootPkg (Some root)) ;;
                let* root := resolveDependencies fuel root pkgVersion in
                (* rootPkg points to the node the goroutines wrote *)
                modify (set_rootPkg (Some root)) ;;
                match MarshalIndent root with
                | inr err => ret (inr (WriteHeader 500 w))
                | inl stringified =>
                    modify (set_lastRequest <[RequestURI r := stringified]>) ;;
                    ret (inl stringified)
                end
            end
        end
    end in
  match toWrite with
  | inr w => ret w
  | inl toWrite =>
      let w := Header_Set "Content-Type" "application/json" w in
      let w := WriteHeader 200 w in
      let w := Write toWrite w in
      WaitGroupCount_Done ;;
      ret w
  end.

End Api.

(** ** A world to run the functions in

    Instances of the interfaces above on which the functions compute: a
    semver that knows versions [M.m.p] and the constraints [M.m.p],
    [=M.m.p] and [^M.m.p] (on these it answers as Masterminds/semver does),
    a JSON codec that knows the documents of one small registry, and that
    registry. *)
Module Example.

(** *** Versions [M.m.p] *)

Record version3 : Type := mkV { major : N; minor : N; patch : N }.

Inductive constraint3 : Type :=
  | Exact (v : version3)      (* "1.2.3" or "=1.2.3" *)
  | Caret (v : version3).     (* "^1.2.3" *)

(** The fields of [s] between dots. *)
Fixpoint fields (s : string) : list string :=
  match s with
  | EmptyString => [EmptyString]
  | String c rest =>
      if Ascii.eqb c "."%char then EmptyString :: fields rest
      else match fields rest with
           | [] => [String c EmptyString]
           | f :: fs => String c f :: fs
           end
  end.

Definition number (s : string) : option N :=
  match s with
  | EmptyString => None
  | _ => N.of_uint <$> DecimalString.NilEmpty.uint_of_string s
  end.

Definition parse_version (s : string) : option version3 :=
  match fields s with
  | [a; b; c] =>
      match number a, number b, number c with
      | Some x, Some y, Some z => Some (mkV x y z)
      | _, _, _ => None
      end
  | _ => None
  end.

Definition parse_constraint (s : string) : constraint3 + string :=
  let improper := inr ("improper constraint: " +:+ s) in
  match s with
  | String c rest =>
      if Ascii.eqb c "^"%char
      then from_option (fun v => inl (Caret v)) improper (parse_version rest)
      else if Ascii.eqb c "="%char
      then from_option (fun v => inl (Exact v)) improper (parse_version rest)
      else from_option (fun v => inl (Exact v)) improper (parse_version s)
  | EmptyString => improper
  end.

Definition less (a b : version3) : bool :=
  (major a <? major b)%N
  || ((major a =? major b)%N
      && ((minor a <? minor b)%N
          || ((minor a =? minor b)%N && (patch a <? patch b)%N))).

Definition same (a b : version3) : bool :=
  (major a =? major b)%N && (minor a =? minor b)%N && (patch a =? patch b)%N.

Definition check (c : constraint3) (x : version3) : bool :=
  match c with
  | Exact v => same x v
  | Caret v =>
      if (0 <? major v)%N then (major x =? major v)%N && negb (less x v)
      else if (0 <? minor v)%N
      then (major x =? 0)%N && (minor x =? minor v)%N && negb (less x v)
      else same x v
  end.

Definition show_N (n : N) : string :=
  DecimalString.NilZero.string_of_uint (N.to_uint n).

Definition show (v : version3) : string :=
  show_N (major v) +:+ "." +:+ show_N (minor v) +:+ "." +:+ show_N (patch v).

#[export] Instance semver3 : Semver := {|
  SemVersion := version3;
  Constraints := constraint3;
  NewVersion := parse_version;
  NewConstraint := parse_constraint;
  Check := check;
  LessThan := less;
  VersionString := show
|}.

(** [x] may stand before [y] in a sorted collection. *)
Definition not_after (x y : version3) : Prop := less y x = false.

#[export] Instance not_after_dec x y : Decision (not_after x y).
Proof. unfold not_after. apply _. Defined.

(** [range] in the order of [map_to_list]; [sort.Sort] as a merge sort. *)
#[export] Instance runtime3 : GoRuntime := {|
  range := fun A m => map_to_list m;
  sort_Sort := merge_sort not_after
|}.

(** *** The registry and its documents *)

Definition dq : string := String (ascii_of_nat 34) EmptyString.
Definition nl : string := String (ascii_of_nat 10) EmptyString.
Definition quoted (s : string) : string := dq +:+ s +:+ dq.

Fixpoint join (sep : string) (l : list string) : string :=
  match l with
  | [] => EmptyString
  | [x] => x
  | x :: rest => x +:+ sep +:+ join sep rest
  end.

Fixpoint assoc {A} (k : string) (l : list (string * A)) : option A :=
  match l with
  | [] => None
  | (k', a) :: rest => if String.eqb k k' then Some a else assoc k rest
  end.

(** A package of the registry: its versions, each with its dependencies. *)
Record package : Type := mkPackage {
  pname : string;
  pversions : list (string * list (string * string))
}.

(** The document [{"versions":{"1.0.0":{},...}}]. *)
Definition meta_document (p : package) : string :=
  "{" +:+ quoted "versions" +:+ ":{"
  +:+ join "," (map (fun v => quoted v.1 +:+ ":{}") (pversions p)) +:+ "}}".

(** The document [{"name":...,"version":...,"dependencies":{...}}]. *)
Definition manifest_document (name version : string)
    (deps : list (string * string)) : string :=
  "{" +:+ quoted "name" +:+ ":" +:+ quoted name +:+ ","
  +:+ quoted "version" +:+ ":" +:+ quoted version +:+ ","
  +:+ quoted "dependencies" +:+ ":{"
  +:+ join "," (map (fun d => quoted d.1 +:+ ":" +:+ quoted d.2) deps) +:+ "}}".

(** What [json.Unmarshal] stores for these documents. *)
Definition meta_value (p : package) : npmPackageMetaResponse :=
  mkMeta (list_to_map (map (fun v => (v.1, zero_npmPackageResponse)) (pversions p))).
Definition manifest_value (name version : string)
    (deps : list (string * string)) : npmPackageResponse :=
  mkResponse name version (list_to_map deps).

Definition packages : list package := [
  (* the two scenarios of the specification *)
  mkPackage "leaf-pkg" [("1.0.0", [])];
  mkPackage "root" [("1.0.0", []); ("1.2.0", [("leaf", "^1.0.0")])];
  mkPackage "leaf" [("1.0.0", [])];
  (* a package that depends on itself *)
  mkPackage "loop" [("1.0.0", [("loop", "1.0.0")])];
  (* a diamond: top -> left -> shared, top -> right -> shared *)
  mkPackage "top" [("1.0.0", [("left", "1.0.0"); ("right", "1.0.0")])];
  mkPackage "left" [("1.0.0", [("shared", "1.0.0")])];
  mkPackage "right" [("1.0.0", [("shared", "1.0.0")])];
  mkPackage "shared" [("1.0.0", [])];
  (* dependencies that cannot be resolved next to one that can *)
  mkPackage "app" [("2.0.0", [("gone", "^1.0.0"); ("leaf", "^1.0.0");
                              ("old", "^3.0.0"); ("torn", "1.0.0")])];
  mkPackage "old" [("1.0.0", [])]
].

Definition url (path : string) : string := "https://registry.npmjs.org/" +:+ path.

Definition package_urls (p : package) : list (string * HttpResult) :=
  (url (pname p), Body (meta_document p))
  :: map (fun v => (url (pname p +:+ "/" +:+ v.1),
                    Body (manifest_document (pname p) v.1 v.2))) (pversions p).

(** The answers of the registry.  [garbled] has a version whose manifest is
    not JSON; the manifest of [torn] breaks off while it is read; any other
    address, that of [gone] among them, cannot be reached. *)
Definition answers : list (string * HttpResult) :=
  concat (map package_urls packages) ++ [
    (url "garbled", Body (meta_document (mkPackage "garbled" [("1.0.0", [])])));
    (url "garbled/1.0.0", Body "<html>502 Bad Gateway</html>");
    (url "torn", Body (meta_document (mkPackage "torn" [("1.0.0", [])])));
    (url "torn/1.0.0", ReadFailed (io_error "unexpected EOF"))
  ].

#[export] Instance npm : Registry := {|
  http_Get := fun u =>
    default (GetFailed (http_error "dial tcp: lookup failed")) (assoc u answers)
|}.

Definition meta_documents : list (string * npmPackageMetaResponse) :=
  map (fun p => (meta_document p, meta_value p))
    (packages ++ [mkPackage "garbled" [("1.0.0", [])];
                  mkPackage "torn" [("1.0.0", [])]]).

Definition manifest_documents : list (string * npmPackageResponse) :=
  concat (map (fun p =>
    map (fun v => (manifest_document (pname p) v.1 v.2,
                   manifest_value (pname p) v.1 v.2)) (pversions p)) packages).

Definition known (data : string) : bool :=
  bool_decide (is_Some (assoc data meta_documents))
  || bool_decide (is_Some (assoc data manifest_documents)).

(** [json.MarshalIndent(t, "", "  ")] for names and versions that need no
    escaping; the members of [dependencies] come in the order of their keys. *)
Definition key_le (x y : string * string) : Prop := String.leb x.1 y.1 = true.

#[export] Instance key_le_dec x y : Decision (key_le x y).
Proof. unfold key_le. apply _. Defined.

Fixpoint marshal (indent : string) (t : NpmPackageVersion) : string :=
  let inner := indent +:+ "  " in
  let members :=
    map_fold (fun k dep acc => (k, marshal (inner +:+ "  ") dep) :: acc) []
      (Dependencies t) in
  let line m := inner +:+ "  " +:+ quoted m.1 +:+ ": " +:+ m.2 in
  "{" +:+ nl
  +:+ inner +:+ quoted "name" +:+ ": " +:+ quoted (Name t) +:+ "," +:+ nl
  +:+ inner +:+ quoted "version" +:+ ": " +:+ quoted (Version t) +:+ "," +:+ nl
  +:+ inner +:+ quoted "dependencies" +:+ ": "
  +:+ match members with
      | [] => "{}"
      | _ => "{" +:+ nl
             +:+ join ("," +:+ nl) (map line (merge_sort key_le members))
             +:+ nl +:+ inner +:+ "}"
      end
  +:+ nl +:+ indent +:+ "}".

#[export] Instance codec : Json := {|
  json_Valid := known;
  Unmarshal_meta := fun data v =>
    match assoc data meta_documents with
    | Some m => (m, None)
    | None => if known data then (v, None)
              else (v, Some (json_error "invalid character"))
    end;
  Unmarshal_package := fun data v =>
    match assoc data manifest_documents with
    | Some m => (m, None)
    | None => if known data then (v, None)
              else (v, Some (json_error "invalid character"))
    end;
  MarshalIndent := fun t => inl (marshal EmptyString t)
|}.

(** What [fetchPackageMeta "root"] decodes. *)
Definition root_meta : npmPackageMetaResponse :=
  meta_value (mkPackage "root" [("1.0.0", []); ("1.2.0", [])]).

(** [root_meta] with two more keys that are not versions. *)
Definition root_meta_tagged : npmPackageMetaResponse :=
  mkMeta (<["latest" := zero_npmPackageResponse]>
            (<["1.x-dev" := zero_npmPackageResponse]> (Versions root_meta))).

(** The manifests of [loop] and [app], decoded. *)
Definition loop_manifest : npmPackageResponse :=
  manifest_value "loop" "1.0.0" [("loop", "1.0.0")].
Definition app_manifest : npmPackageResponse :=
  manifest_value "app" "2.0.0" [("gone", "^1.0.0"); ("leaf", "^1.0.0");
                                ("old", "^3.0.0"); ("torn", "1.0.0")].

(** The tree of [app]: of its four dependencies only [leaf] resolves. *)
Definition app_tree : NpmPackageVersion :=
  mkNode "app" "2.0.0"
    (list_to_map [("gone", mkNode "gone" "^1.0.0" ∅);
                  ("leaf", mkNode "leaf" "1.0.0" ∅);
                  ("old", mkNode "old" "^3.0.0" ∅);
                  ("torn", mkNode "torn" "1.0.0" ∅)]).


(** A process that has served nothing yet. *)
Definition fresh : Globals := mkGlobals ∅ 0 None [].

(** The request for [/package/<name>/<version>] as the router hands it on. *)
Definition request (name version : string) : Request :=
  mkRequest ("/package/" +:+ name +:+ "/" +:+ version)
    (<["package" := name]> (<["version" := version]> ∅)).

End Example.

(** ** Notions used in the statements *)

Section Notions.
Context `{SV : Semver} `{RT : !GoRuntime} `{JS : Json} `{RG : Registry}.

(** The state after [http.Get(u)]. *)
Definition logged (u : string) (g : Globals) : Globals :=
  set_fetches (fun l => l ++ [u]) g.

Definition metaUrl (p : string) : string := "https://registry.npmjs.org/" +:+ p.
Definition packageUrl (name version : string) : string :=
  "https://registry.npmjs.org/" +:+ name +:+ "/" +:+ version.

(** What [fetchPackageMeta] and [fetchPackage] return, the log apart. *)
Definition packageMetaOf (p : string) : npmPackageMetaResponse + error :=
  match http_Get (metaUrl p) with
  | GetFailed err => inr err
  | ReadFailed err => inr err
  | Body body =>
      match Unmarshal_meta body zero_npmPackageMetaResponse with
      | (_, Some err) => inr err
      | (parsed, None) => inl parsed
      end
  end.

Definition packageOf (name version : string) : npmPackageResponse + error :=
  match http_Get (packageUrl name version) with
  | GetFailed err => inr err
  | ReadFailed err => inr err
  | Body body => inl (fst (Unmarshal_package body zero_npmPackageResponse))
  end.

(** How far the resolution of the node [name] under [constraint] gets. *)
Inductive outcome : Type :=
  | MetaFailed                                   (* fetchPackageMeta failed *)
  | VersionFailed                                (* no version chosen *)
  | ManifestFailed (concrete : string)           (* fetchPackage failed *)
  | Expanded (concrete : string) (manifest : npmPackageResponse).

Definition outcomeOf (name constraint : string) : outcome :=
  match packageMetaOf name with
  | inr _ => MetaFailed
  | inl pkgMeta =>
      match highestCompatibleVersion constraint pkgMeta with
      | inr _ => VersionFailed
      | inl concrete =>
          match packageOf name concrete with
          | inr _ => ManifestFailed concrete
          | inl manifest => Expanded concrete manifest
          end
      end
  end.

Definition fails (name constraint : string) : Prop :=
  match outcomeOf name constraint with
  | Expanded _ _ => False
  | _ => True
  end.

(** The tree a call leaves behind, whatever the globals were. *)
Definition resolved (fuel : nat) (pkg : NpmPackageVersion)
    (versionConstraint : string) : option NpmPackageVersion :=
  fst <$> resolveDependencies fuel pkg versionConstraint (mkGlobals ∅ 0 None []).

(** A version of the package that satisfies the constraint: some key of
    [Versions] parses to it and passes [Check]. *)
Definition satisfying (c : Constraints) (versions : npmPackageMetaResponse)
    (v : SemVersion) : Prop :=
  exists s, is_Some (Versions versions !! s)
            /\ NewVersion s = Some v /\ Check c v = true.

(** What one version string adds to [compatible]. *)
Definition contribution (c : Constraints) (s : string) : list SemVersion :=
  match NewVersion s with
  | None => []
  | Some semVer => if Check c semVer then [semVer] else []
  end.

Definition parseable (s : string) : bool :=
  match NewVersion s with Some _ => true | None => false end.

(** How often [u] was requested. *)
Definition calls (u : string) (g : Globals) : nat :=
  length (filter (fun x => x = u) (fetches g)).

(** Every entry of every [Dependencies] map stands under the name of the
    node it holds. *)
Inductive keyed_by_name : NpmPackageVersion -> Prop :=
  | keyed_node t :
      (forall k child, Dependencies t !! k = Some child ->
                       Name child = k /\ keyed_by_name child) ->
      keyed_by_name t.

(** The reading of "keyed by a fresh identifier, not by the dependency
    name": no entry stands under the name of its node. *)
Definition keyed_by_fresh_identifiers (t : NpmPackageVersion) : Prop :=
  forall k child, Dependencies t !! k = Some child -> k <> Name child.

End Notions.

(** ** Further notions *)

(** The values of an [int64]. *)
Definition in_int64 (z : Z) : Prop := (- 2 ^ 63 <= z < 2 ^ 63)%Z.

(** [json.Unmarshal] into a [npmPackageMetaResponse] reports invalid JSON
    as an error, like it does for every destination. *)
Class JsonMetaLaws `{JS : Json} : Prop := {
  Unmarshal_meta_invalid : forall data v,
    json_Valid data = false ->
    exists v' e, Unmarshal_meta data v = (v', Some e)
}.

(** The log [after] continues the log [before]. *)
Definition extends (before after : Globals) (l : list string) : Prop :=
  fetches after = fetches before ++ l.

(** The three answers a handler can leave in a fresh writer. *)
Definition untouched : ResponseWriter := newResponseWriter.
Definition serverError : ResponseWriter := mkWriter ∅ (Some 500%Z) EmptyString.
Definition okJson (bytes : string) : ResponseWriter :=
  mkWriter (<["Content-Type" := "application/json"]> ∅) (Some 200%Z) bytes.

(** ** A registry with an outage *)
Module Outage.
Import Example.

(** The registry of [Example], except that the metadata of [broken] is an
    error page. *)
Definition registry : Registry := {|
  http_Get := fun u =>
    if String.eqb u (url "broken") then Body "503 Service Unavailable"
    else http_Get (Registry := npm) u
|}.

(** The process after it served [/package/leaf-pkg/1.0.0]. *)
Definition served : option (ResponseWriter * Globals) :=
  packageHandler 1 newResponseWriter (request "leaf-pkg" "1.0.0") fresh.


(** A process whose counter stands at the largest [int64]. *)
Definition saturated : Globals := mkGlobals ∅ (2 ^ 63 - 1) None [].

End Outage.

(** * Properties *)

(** ** The version resolver *)

Section Resolver.
Context `{SV : Semver} `{RT : !GoRuntime}.

Lemma filterLoop_bind c keys :
  filterLoop c keys = keys ≫= contribution c.
Proof.
  unfold filterLoop.
  enough (G : forall acc,
    foldl (fun compatible version =>
             match NewVersion version with
             | None => compatible
             | Some semVer =>
                 if Check c semVer then compatible ++ [semVer] else compatible
             end) acc keys = acc ++ (keys ≫= contribution c)) by apply (G []).
  induction keys as [|s keys IH]; intros acc; simpl.
  - by rewrite app_nil_r.
  - rewrite IH. unfold contribution at 2.
    destruct (NewVersion s) as [v|]; [destruct (Check c v)|]; simpl;
      by rewrite <- ?app_assoc.
Qed.

Lemma elem_of_filterLoop c keys v :
  v ∈ filterLoop c keys <->
  exists s, s ∈ keys /\ NewVersion s = Some v /\ Check c v = true.
Proof.
  rewrite filterLoop_bind, list_elem_of_bind. unfold contribution. split.
  - intros (s & Hv & Hs). exists s. split; [done|].
    destruct (NewVersion s) as [w|]; [|by apply elem_of_nil in Hv].
    destruct (Check c w) eqn:Hc; [|by apply elem_of_nil in Hv].
    apply list_elem_of_singleton in Hv. by subst.
  - intros (s & Hs & Hp & Hc). exists s. split; [|done].
    rewrite Hp, Hc. by apply list_elem_of_singleton.
Qed.

Lemma filterLoop_parseable c keys :
  filterLoop c keys = filterLoop c (filter (fun s => parseable s = true) keys).
Proof.
  rewrite !filterLoop_bind. induction keys as [|s keys IH]; [done|].
  rewrite filter_cons. change ((s :: keys) ≫= contribution c)
    with (contribution c s ++ (keys ≫= contribution c)).
  destruct (NewVersion s) as [v|] eqn:Hs.
  - rewrite decide_True by (unfold parseable; by rewrite Hs).
    change ((s :: ?l) ≫= contribution c)
      with (contribution c s ++ (l ≫= contribution c)).
    by rewrite IH.
  - rewrite decide_False by (unfold parseable; by rewrite Hs).
    unfold contribution at 1. by rewrite Hs.
Qed.

Context `{GL : !GoRuntimeLaws}.

Lemma elem_of_range_keys {A} (m : gmap string A) s :
  s ∈ (range m).*1 <-> is_Some (m !! s).
Proof.
  rewrite (range_perm A m). rewrite list_elem_of_fmap. split.
  - intros ([k a] & -> & Hin). apply elem_of_map_to_list in Hin. by exists a.
  - intros [a Ha]. exists (s, a). split; [done|]. by apply elem_of_map_to_list.
Qed.

Lemma elem_of_filterCompatibleVersions c versions v :
  v ∈ filterCompatibleVersions c versions <-> satisfying c versions v.
Proof.
  unfold filterCompatibleVersions, satisfying. rewrite elem_of_filterLoop.
  split; intros (s & Hs & Hrest); exists s; split; try done;
    by apply elem_of_range_keys.
Qed.

(** The last element of a sorted collection is not less than any other. *)
Lemma sort_Sort_last l v :
  sort_Sort l !! (length (sort_Sort l) - 1)%nat = Some v ->
  forall v', v' ∈ l -> LessThan v v' = false.
Proof.
  intros Hlast v' Hin. rewrite <- (sort_perm l) in Hin.
  apply list_elem_of_lookup in Hin as [i Hi].
  pose proof (lookup_lt_Some _ _ _ Hi) as Hlt.
  destruct (decide (i = length (sort_Sort l) - 1)%nat) as [->|Hne].
  - rewrite Hlast in Hi. injection Hi as <-. apply LessThan_irrefl.
  - eapply sort_sorted; [exact Hi|exact Hlast|lia].
Qed.

(** C1.  [highestCompatibleVersion] answers one of three ways.  A
    constraint string that [semver.NewConstraint] rejects gives that error.
    Otherwise, when some version of the package satisfies the constraint,
    the answer is the [String] of a satisfying version that is less than no
    other satisfying version; when none does, the answer is the error
    [no compatible versions found]. *)
Theorem highestCompatibleVersion_maximum constraintStr versions :
  match NewConstraint constraintStr with
  | inr text =>
      highestCompatibleVersion constraintStr versions = inr (semver_error text)
  | inl c =>
      (exists v, satisfying c versions v
         /\ (forall v', satisfying c versions v' -> LessThan v v' = false)
         /\ highestCompatibleVersion constraintStr versions
            = inl (VersionString v))
      \/ ((forall v, ~ satisfying c versions v)
          /\ highestCompatibleVersion constraintStr versions
             = inr (errors_New "no compatible versions found"))
  end.
Proof.
  unfold highestCompatibleVersion.
  destruct (NewConstraint constraintStr) as [c|text]; [|done].
  set (filtered := filterCompatibleVersions c versions).
  assert (Hmem : forall v, v ∈ filtered <-> satisfying c versions v)
    by apply elem_of_filterCompatibleVersions.
  destruct (Nat.eqb_spec (length filtered) 0) as [Hlen|Hlen].
  - right. split; [|done]. intros v Hv. apply Hmem in Hv.
    apply nil_length_inv in Hlen. rewrite Hlen in Hv.
    by apply elem_of_nil in Hv.
  - left. pose proof (Permutation_length (sort_perm filtered)) as Hsl.
    destruct (sort_Sort filtered !! (length (sort_Sort filtered) - 1)%nat)
      as [v|] eqn:Hlast.
    + exists v. split; [|split; [|done]].
      * apply Hmem. rewrite <- (sort_perm filtered).
        by eapply list_elem_of_lookup_2.
      * intros v' Hv'. apply Hmem in Hv'. by eapply sort_Sort_last.
    + apply lookup_ge_None in Hlast. lia.
Qed.

(** C9.  Version strings that do not parse leave no trace: the collection
    [filterCompatibleVersions] builds, and with it the answer of
    [highestCompatibleVersion], error or not, is the same for two packages
    whose parseable version strings come in the same order, whatever
    unparseable strings stand between them. *)
Theorem unparseable_versions_skipped m1 m2 :
  filter (fun s => parseable s = true) (range (Versions m1)).*1
  = filter (fun s => parseable s = true) (range (Versions m2)).*1 ->
  (forall c, filterCompatibleVersions c m1 = filterCompatibleVersions c m2)
  /\ (forall constraintStr,
        highestCompatibleVersion constraintStr m1
        = highestCompatibleVersion constraintStr m2).
Proof.
  intros Heq.
  assert (Hf : forall c,
    filterCompatibleVersions c m1 = filterCompatibleVersions c m2).
  { intros c. unfold filterCompatibleVersions.
    rewrite (filterLoop_parseable c (range (Versions m1)).*1).
    rewrite (filterLoop_parseable c (range (Versions m2)).*1).
    by rewrite Heq. }
  split; [exact Hf|]. intros constraintStr. unfold highestCompatibleVersion.
  destruct (NewConstraint constraintStr) as [c|text]; [|done].
  by rewrite (Hf c).
Qed.

End Resolver.

(** ** The resolution engine *)

Section Engine.
Context `{SV : Semver} `{RT : !GoRuntime} `{JS : Json} `{RG : Registry}.

Lemma fetchPackageMeta_run p g :
  fetchPackageMeta p g = Some (packageMetaOf p, logged (metaUrl p) g).
Proof.
  unfold fetchPackageMeta, packageMetaOf, get, bind, modify, ret, metaUrl, logged.
  destruct (http_Get _) as [e|e|body]; try done.
  by destruct (Unmarshal_meta body _) as [parsed [e|]].
Qed.

Lemma fetchPackage_run name version g :
  fetchPackage name version g
  = Some (packageOf name version, logged (packageUrl name version) g).
Proof.
  unfold fetchPackage, packageOf, get, bind, modify, ret, packageUrl, logged.
  by destruct (http_Get _) as [e|e|body].
Qed.

(** One call of [resolveDependencies], by the outcome of its three steps. *)
Lemma resolveDependencies_step fuel pkg c g :
  let g1 := logged (metaUrl (Name pkg))
              (set_goroutineCount (fun n => int64_wrap (n + 1)) g) in
  resolveDependencies (S fuel) pkg c g =
  match outcomeOf (Name pkg) c with
  | MetaFailed | VersionFailed => Some (pkg, g1)
  | ManifestFailed v =>
      Some (set_Version v pkg, logged (packageUrl (Name pkg) v) g1)
  | Expanded v npmPkg =>
      match dependencyLoop (resolveDependencies fuel)
              (range (rDependencies npmPkg)) (set_Version v pkg)
              (logged (packageUrl (Name pkg) v) g1) with
      | Some (t, g3) =>
          Some (t, set_goroutineCount (fun n => int64_wrap (n + -1)) g3)
      | None => None
      end
  end.
Proof.
  intros g1. unfold outcomeOf. cbn [resolveDependencies].
  unfold bind at 1. unfold WaitGroupCount_Add at 1, modify at 1.
  unfold bind at 1. rewrite fetchPackageMeta_run. fold g1.
  destruct (packageMetaOf (Name pkg)) as [pkgMeta|e]; [|done].
  destruct (highestCompatibleVersion c pkgMeta) as [v|e]; [|done].
  unfold bind at 1. cbn [Name Version set_Version].
  rewrite fetchPackage_run.
  destruct (packageOf (Name pkg) v) as [npmPkg|e]; [|done].
  unfold bind at 1.
  destruct (dependencyLoop _ _ _ _) as [[t g3]|]; [|done].
  done.
Qed.

Lemma size_insert_pos {A} (m : gmap string A) k a :
  (0 <? size (<[k := a]> m))%nat = true.
Proof.
  apply Nat.ltb_lt.
  destruct (size (<[k := a]> m)) eqn:Hs; [|lia].
  apply map_size_empty_inv in Hs. by apply insert_non_empty in Hs.
Qed.

(** The loop stores the dependencies one by one; with the [len] test
    always true it reads as follows. *)
Lemma dependencyLoop_cons resolve k c rest pkg g :
  dependencyLoop resolve ((k, c) :: rest) pkg g =
  match resolve (mkNode k c ∅) c g with
  | Some (dep', g') =>
      dependencyLoop resolve rest
        (set_Dependency k dep' (set_Dependency k (mkNode k c ∅) pkg)) g'
  | None => None
  end.
Proof.
  cbn [dependencyLoop]. unfold set_Dependency at 1. cbn [Dependencies].
  by rewrite size_insert_pos.
Qed.

(** The tree a loop builds does not depend on the globals it starts in, as
    long as that holds for the calls it makes. *)
Lemma dependencyLoop_tree resolve
    (R : NpmPackageVersion -> string -> option NpmPackageVersion) :
  (forall dep c g, fst <$> resolve dep c g = R dep c) ->
  forall deps pkg g1 g2,
    fst <$> dependencyLoop resolve deps pkg g1
    = fst <$> dependencyLoop resolve deps pkg g2.
Proof.
  intros HR deps. induction deps as [|[k c] rest IH]; intros pkg g1 g2.
  - done.
  - rewrite !dependencyLoop_cons.
    pose proof (HR (mkNode k c ∅) c g1) as H1.
    pose proof (HR (mkNode k c ∅) c g2) as H2.
    destruct (resolve _ c g1) as [[d1 g1']|], (resolve _ c g2) as [[d2 g2']|];
      simpl in H1, H2; try congruence.
    assert (d1 = d2) as -> by congruence. apply IH.
Qed.

Lemma resolveDependencies_tree fuel pkg c g :
  fst <$> resolveDependencies fuel pkg c g = resolved fuel pkg c.
Proof.
  unfold resolved. generalize (mkGlobals ∅ 0 None []) as g0.
  revert pkg c g. induction fuel as [|fuel IH]; intros pkg c g g0; [done|].
  rewrite !resolveDependencies_step.
  destruct (outcomeOf (Name pkg) c) as [| |v|v npmPkg]; try done.
  match goal with
  | |- fst <$> match dependencyLoop ?r ?d ?p ?ga with _ => _ end
       = fst <$> match dependencyLoop _ _ _ ?gb with _ => _ end =>
      pose proof (dependencyLoop_tree r (resolved fuel)
                    (fun dep c g => IH dep c g _) d p ga gb) as Hl;
      destruct (dependencyLoop r d p ga) as [[t1 g1']|],
               (dependencyLoop r d p gb) as [[t2 g2']|]
  end; simpl in *; congruence.
Qed.

Lemma resolved_Some fuel pkg c t :
  resolved fuel pkg c = Some t ->
  forall g, exists g', resolveDependencies fuel pkg c g = Some (t, g').
Proof.
  intros Ht g. rewrite <- (resolveDependencies_tree fuel pkg c g) in Ht.
  destruct (resolveDependencies fuel pkg c g) as [[t' g']|]; [|done].
  exists g'. simpl in Ht. congruence.
Qed.

Lemma resolveDependencies_resolved fuel pkg c g t g' :
  resolveDependencies fuel pkg c g = Some (t, g') -> resolved fuel pkg c = Some t.
Proof.
  intros Hr. rewrite <- (resolveDependencies_tree fuel pkg c g). by rewrite Hr.
Qed.

(** The loop changes neither the name nor the version of its node. *)
Lemma dependencyLoop_Name_Version resolve deps :
  forall pkg g t g',
    dependencyLoop resolve deps pkg g = Some (t, g') ->
    Name t = Name pkg /\ Version t = Version pkg.
Proof.
  induction deps as [|[k c] rest IH]; intros pkg g t g' Hl.
  - cbn in Hl. unfold ret in Hl. by injection Hl as <- <-.
  - rewrite dependencyLoop_cons in Hl.
    destruct (resolve _ c g) as [[dep' g1]|]; [|done].
    by apply IH in Hl.
Qed.

(** The entries the loop leaves: a dependency of the manifest stands under
    its name with the tree its own call built, every other entry is as it
    was. *)
Lemma dependencyLoop_lookup resolve
    (R : NpmPackageVersion -> string -> option NpmPackageVersion) deps :
  (forall dep c g, fst <$> resolve dep c g = R dep c) ->
  NoDup deps.*1 ->
  forall pkg g t g',
    dependencyLoop resolve deps pkg g = Some (t, g') ->
    forall k,
      Dependencies t !! k =
      match (list_to_map deps : gmap string string) !! k with
      | Some dc => R (mkNode k dc ∅) dc
      | None => Dependencies pkg !! k
      end.
Proof.
  intros HR. induction deps as [|[k c] rest IH]; intros Hnd pkg g t g' Hl k0.
  - cbn in Hl. unfold ret in Hl. injection Hl as <- <-.
    change (list_to_map [] : gmap string string) with (∅ : gmap string string).
    by rewrite lookup_empty.
  - rewrite dependencyLoop_cons in Hl.
    pose proof (HR (mkNode k c ∅) c g) as Hk.
    destruct (resolve _ c g) as [[dep' g1]|]; [|done]. simpl in Hk.
    rewrite fmap_cons in Hnd. apply NoDup_cons in Hnd as [Hnotin Hnd].
    rewrite (IH Hnd _ _ _ _ Hl k0). cbn [list_to_map foldr].
    apply not_elem_of_list_to_map_1 in Hnotin.
    destruct (decide (k0 = k)) as [->|Hne].
    + rewrite lookup_insert_eq. cbn in Hnotin. rewrite Hnotin.
      cbn [set_Dependency Dependencies]. by rewrite lookup_insert_eq.
    + rewrite (lookup_insert_ne _ k k0) by done.
      destruct (list_to_map rest !! k0); [done|].
      cbn [set_Dependency Dependencies Name Version].
      by rewrite !lookup_insert_ne.
Qed.

(** The loop returns as soon as each of its calls does. *)
Lemma dependencyLoop_returns resolve
    (R : NpmPackageVersion -> string -> option NpmPackageVersion) deps :
  (forall dep c g, fst <$> resolve dep c g = R dep c) ->
  (forall k dc, (k, dc) ∈ deps -> is_Some (R (mkNode k dc ∅) dc)) ->
  forall pkg g, is_Some (dependencyLoop resolve deps pkg g).
Proof.
  intros HR. induction deps as [|[k c] rest IH]; intros Hall pkg g.
  - by eexists.
  - rewrite dependencyLoop_cons.
    pose proof (HR (mkNode k c ∅) c g) as Hk.
    destruct (Hall k c) as [d Hd]; [by left|]. rewrite Hd in Hk.
    destruct (resolve _ c g) as [[dep' g1]|]; [|done].
    apply IH. intros k' dc Hin. apply Hall. by right.
Qed.

(** More fuel does not change what a call returns. *)
Lemma dependencyLoop_mono
    (resolve1 resolve2 : NpmPackageVersion -> string -> Task NpmPackageVersion) :
  (forall dep c g x, resolve1 dep c g = Some x -> resolve2 dep c g = Some x) ->
  forall deps pkg g x,
    dependencyLoop resolve1 deps pkg g = Some x ->
    dependencyLoop resolve2 deps pkg g = Some x.
Proof.
  intros Hle deps. induction deps as [|[k c] rest IH]; intros pkg g x; [done|].
  rewrite !dependencyLoop_cons.
  destruct (resolve1 _ c g) as [[d g1]|] eqn:H1; [|done].
  rewrite (Hle _ _ _ _ H1). apply IH.
Qed.

Lemma resolveDependencies_fuel_mono fuel :
  forall pkg c g x,
    resolveDependencies fuel pkg c g = Some x ->
    resolveDependencies (S fuel) pkg c g = Some x.
Proof.
  induction fuel as [|fuel IH]; intros pkg c g x; [done|].
  rewrite (resolveDependencies_step (S fuel)), (resolveDependencies_step fuel).
  destruct (outcomeOf (Name pkg) c) as [| |v|v npmPkg]; try done.
  destruct (dependencyLoop (resolveDependencies fuel) _ _ _)
    as [[t g3]|] eqn:Hl; [|done].
  by rewrite (dependencyLoop_mono _ _ IH _ _ _ _ Hl).
Qed.

(** A node whose resolution fails comes back with the entries it had. *)
Lemma resolveDependencies_fails fuel pkg c g :
  fails (Name pkg) c ->
  exists t g', resolveDependencies (S fuel) pkg c g = Some (t, g')
               /\ Name t = Name pkg /\ Dependencies t = Dependencies pkg.
Proof.
  unfold fails. intros Hf. rewrite resolveDependencies_step.
  destruct (outcomeOf (Name pkg) c) as [| |v|v npmPkg]; [..|done];
    by eexists _, _.
Qed.

Lemma resolveDependencies_Name fuel pkg c g t g' :
  resolveDependencies fuel pkg c g = Some (t, g') -> Name t = Name pkg.
Proof.
  destruct fuel as [|fuel]; [done|]. rewrite resolveDependencies_step.
  destruct (outcomeOf (Name pkg) c) as [| |v|v npmPkg];
    try (intros [= <- <-]; done).
  destruct (dependencyLoop _ _ _ _) as [[t1 g1]|] eqn:Hl; [|done].
  intros [= <- <-]. by apply dependencyLoop_Name_Version in Hl as [-> _].
Qed.

(** C8, as the code has it.  A node is created with the constraint string
    in its version field.  When the metadata cannot be fetched or no
    version is chosen, the node comes back with that constraint string;
    once [highestCompatibleVersion] has chosen a version the field holds
    the chosen version, also when the manifest cannot be fetched. *)
Theorem version_field_constraint_until_resolved fuel name c g t g' :
  resolveDependencies fuel (mkNode name c ∅) c g = Some (t, g') ->
  Version t =
  match outcomeOf name c with
  | MetaFailed | VersionFailed => c
  | ManifestFailed concrete | Expanded concrete _ => concrete
  end.
Proof.
  destruct fuel as [|fuel]; [done|]. rewrite resolveDependencies_step.
  cbn [Name]. destruct (outcomeOf name c) as [| |v|v npmPkg];
    try (intros [= <- <-]; done).
  destruct (dependencyLoop _ _ _ _) as [[t1 g1]|] eqn:Hl; [|done].
  intros [= <- <-]. by apply dependencyLoop_Name_Version in Hl as [_ ->].
Qed.

Context `{GL : !GoRuntimeLaws}.

Lemma range_NoDup {A} (m : gmap string A) : NoDup (range m).*1.
Proof. rewrite (range_perm A m). apply NoDup_fst_map_to_list. Qed.

Lemma list_to_map_range {A} (m : gmap string A) : list_to_map (range m) = m.
Proof.
  rewrite <- (list_to_map_to_list m) at 2.
  apply list_to_map_proper; [apply range_NoDup|apply range_perm].
Qed.

Lemma range_empty {A} : range (∅ : gmap string A) = [].
Proof.
  apply Permutation_nil_r. rewrite (range_perm A ∅). by rewrite map_to_list_empty.
Qed.

(** The entries of an expanded node. *)
Lemma resolveDependencies_children fuel pkg c g t g' v npmPkg :
  outcomeOf (Name pkg) c = Expanded v npmPkg ->
  resolveDependencies (S fuel) pkg c g = Some (t, g') ->
  forall k,
    Dependencies t !! k =
    match rDependencies npmPkg !! k with
    | Some dc => resolved fuel (mkNode k dc ∅) dc
    | None => Dependencies pkg !! k
    end.
Proof.
  intros Ho. rewrite resolveDependencies_step, Ho.
  destruct (dependencyLoop _ _ _ _) as [[t1 g1]|] eqn:Hl; [|done].
  intros [= <- <-] k.
  rewrite (dependencyLoop_lookup _ (resolved fuel) _
             (fun dep c g => resolveDependencies_tree fuel dep c g)
             (range_NoDup _) _ _ _ _ Hl k).
  by rewrite list_to_map_range.
Qed.

Lemma resolveDependencies_returns fuel pkg c g v npmPkg :
  outcomeOf (Name pkg) c = Expanded v npmPkg ->
  (forall k dc, rDependencies npmPkg !! k = Some dc ->
                is_Some (resolved fuel (mkNode k dc ∅) dc)) ->
  is_Some (resolveDependencies (S fuel) pkg c g).
Proof.
  intros Ho Hall. rewrite resolveDependencies_step, Ho.
  match goal with
  | |- is_Some (match dependencyLoop ?r ?d ?p ?g0 with _ => _ end) =>
      destruct (dependencyLoop_returns r (resolved fuel) d
                  (fun dep c g => resolveDependencies_tree fuel dep c g))
        with (pkg := p) (g := g0) as [[t1 g1] ->]; [|by eexists]
  end.
  intros k dc Hin. apply Hall.
  rewrite (range_perm _ _) in Hin. by apply elem_of_map_to_list in Hin.
Qed.

Lemma keyed_by_name_inv t k child :
  keyed_by_name t -> Dependencies t !! k = Some child ->
  Name child = k /\ keyed_by_name child.
Proof. intros [t' Hall]. apply Hall. Qed.

Lemma keyed_by_name_leaf name v : keyed_by_name (mkNode name v ∅).
Proof.
  constructor. intros k child Hk. cbn [Dependencies] in Hk.
  rewrite lookup_empty in Hk. discriminate Hk.
Qed.

Lemma keyed_by_name_set_Version v t :
  keyed_by_name t -> keyed_by_name (set_Version v t).
Proof.
  intros Ht. constructor. intros k child Hk.
  exact (keyed_by_name_inv t k child Ht Hk).
Qed.

Lemma resolveDependencies_keyed fuel :
  forall pkg c g t g',
    keyed_by_name pkg ->
    resolveDependencies fuel pkg c g = Some (t, g') -> keyed_by_name t.
Proof.
  induction fuel as [|fuel IH]; intros pkg c g t g' Hpkg Hr.
  { discriminate Hr. }
  destruct (outcomeOf (Name pkg) c) as [| |v|v npmPkg] eqn:Ho.
  - rewrite resolveDependencies_step, Ho in Hr. injection Hr as <- <-.
    exact Hpkg.
  - rewrite resolveDependencies_step, Ho in Hr. injection Hr as <- <-.
    exact Hpkg.
  - rewrite resolveDependencies_step, Ho in Hr. injection Hr as <- <-.
    by apply keyed_by_name_set_Version.
  - constructor. intros k child Hk.
    rewrite (resolveDependencies_children _ _ _ _ _ _ _ _ Ho Hr k) in Hk.
    destruct (rDependencies npmPkg !! k) as [dc|].
    + destruct (resolved_Some _ _ _ _ Hk g) as [g1 Hc]. split.
      * exact (resolveDependencies_Name _ _ _ _ _ _ Hc).
      * eapply IH; [|exact Hc]. apply keyed_by_name_leaf.
    + exact (keyed_by_name_inv pkg k child Hpkg Hk).
Qed.

(** C5, as the code has it.  In the tree [resolveDependencies] builds every
    entry of every [Dependencies] map stands under the name of its node,
    and each dependency of the manifest of an expanded node has an entry
    under its name that holds the node of that name: manifest names are
    keys of a map, so no two dependencies of one node share an entry. *)
Theorem children_keyed_by_dependency_name fuel name c g t g' :
  resolveDependencies fuel (mkNode name c ∅) c g = Some (t, g') ->
  keyed_by_name t
  /\ (forall v npmPkg, outcomeOf name c = Expanded v npmPkg ->
        forall k, (is_Some (rDependencies npmPkg !! k) ->
                   exists child, Dependencies t !! k = Some child
                                 /\ Name child = k)
                  /\ (rDependencies npmPkg !! k = None ->
                      Dependencies t !! k = None)).
Proof.
  intros Hr. split.
  - eapply resolveDependencies_keyed; [|exact Hr]. apply keyed_by_name_leaf.
  - intros v npmPkg Ho k. destruct fuel as [|fuel]; [discriminate Hr|].
    pose proof (resolveDependencies_children fuel (mkNode name c ∅) c g t g'
                  v npmPkg Ho Hr k) as Hk.
    split.
    + intros [dc Hdc]. rewrite Hdc in Hk.
      destruct (Dependencies t !! k) as [child|] eqn:Hch.
      * exists child. split; [done|]. symmetry in Hk.
        destruct (resolved_Some _ _ _ _ Hk g) as [g1 Hc].
        by apply resolveDependencies_Name in Hc.
      * exfalso. rewrite resolveDependencies_step in Hr. cbn [Name] in Hr.
        rewrite Ho in Hr.
        destruct (dependencyLoop _ _ _ _) as [[t1 g1]|] eqn:Hl; [|done].
        injection Hr as <- <-.
        assert (Hin : (k, dc) ∈ range (rDependencies npmPkg)).
        { rewrite (range_perm _ _). by apply elem_of_map_to_list. }
        clear -Hin Hl Hk. revert Hl Hk Hin.
        generalize (set_Version v (mkNode name c ∅)).
        generalize (logged (packageUrl name v)
                      (logged (metaUrl name)
                         (set_goroutineCount (fun n => int64_wrap (n + 1)) g))).
        induction (range (rDependencies npmPkg)) as [|[k' c'] rest IH];
          intros g0 p Hl Hk Hin; [by apply elem_of_nil in Hin|].
        rewrite dependencyLoop_cons in Hl.
        destruct (resolveDependencies fuel _ c' g0) as [[d g2]|] eqn:Hd;
          [|done].
        apply elem_of_cons in Hin as [[= <- <-]|Hin].
        -- apply resolveDependencies_resolved in Hd. congruence.
        -- by eapply IH.
    + intros Hnone. rewrite Hnone in Hk. cbn [Dependencies] in Hk.
      by rewrite lookup_empty in Hk.
Qed.

Context `{JL : !JsonLaws}.

(** C10.  When the body of a manifest is not valid JSON, [fetchPackage]
    returns the zero manifest and no error; the node of such a package
    does not count as failed, and comes back with the chosen version and
    no dependencies. *)
Theorem malformed_manifest_is_leaf name version body :
  http_Get (packageUrl name version) = Body body ->
  json_Valid body = false ->
  (forall g,
     fetchPackage name version g
     = Some (inl zero_npmPackageResponse, logged (packageUrl name version) g))
  /\ (forall fuel c pkgMeta g,
        packageMetaOf name = inl pkgMeta ->
        highestCompatibleVersion c pkgMeta = inl version ->
        ~ fails name c
        /\ exists g', resolveDependencies (S fuel) (mkNode name c ∅) c g
                      = Some (mkNode name version ∅, g')).
Proof.
  intros Hget Hbad.
  assert (Hpkg : packageOf name version = inl zero_npmPackageResponse).
  { unfold packageOf. rewrite Hget.
    destruct (Unmarshal_package_invalid body zero_npmPackageResponse Hbad)
      as [e ->]. done. }
  split.
  - intros g. by rewrite fetchPackage_run, Hpkg.
  - intros fuel c pkgMeta g Hmeta Hver.
    assert (Ho : outcomeOf name c = Expanded version zero_npmPackageResponse).
    { unfold outcomeOf. by rewrite Hmeta, Hver, Hpkg. }
    split.
    + unfold fails. rewrite Ho. tauto.
    + rewrite resolveDependencies_step. cbn [Name]. rewrite Ho.
      cbn [rDependencies zero_npmPackageResponse]. rewrite range_empty.
      by eexists.
Qed.

End Engine.

(** ** The handler *)

Section Handler.
Context `{SV : Semver} `{RT : !GoRuntime} `{JS : Json} `{GL : !GoRuntimeLaws}.

(** The handler on a request that is not in the cache and has both
    parameters. *)
Lemma packageHandler_miss `{RG : Registry} fuel w r g pkgName pkgVersion :
  lastRequest g !! RequestURI r = None ->
  Vars r !! "package" = Some pkgName ->
  Vars r !! "version" = Some pkgVersion ->
  let root := mkNode pkgName pkgVersion ∅ in
  packageHandler fuel w r g =
  match resolveDependencies fuel root pkgVersion (set_rootPkg (Some root) g) with
  | None => None
  | Some (t, g1) =>
      match MarshalIndent t with
      | inr _ => Some (WriteHeader 500 w, set_rootPkg (Some t) g1)
      | inl stringified =>
          Some (Write stringified
                  (WriteHeader 200
                     (Header_Set "Content-Type" "application/json" w)),
                set_goroutineCount (fun n => int64_wrap (n + -1))
                  (set_lastRequest <[RequestURI r := stringified]>
                     (set_rootPkg (Some t) g1)))
      end
  end.
Proof.
  intros Hc Hp Hv root. unfold packageHandler.
  unfold bind at 1. unfold gets at 1. rewrite Hc, Hp, Hv.
  unfold bind at 1. unfold bind at 1. unfold modify at 1. unfold bind at 1.
  fold root.
  destruct (resolveDependencies fuel root pkgVersion _) as [[t g1]|]; [|done].
  unfold bind at 1. unfold modify at 1.
  by destruct (MarshalIndent t) as [stringified|e].
Qed.

(** The handler on a request that is in the cache. *)
Lemma packageHandler_hit `{RG : Registry} fuel w r g cached :
  lastRequest g !! RequestURI r = Some cached ->
  packageHandler fuel w r g =
  Some (Write cached
          (WriteHeader 200 (Header_Set "Content-Type" "application/json" w)),
        set_goroutineCount (fun n => int64_wrap (n + -1)) g).
Proof.
  intros Hc. unfold packageHandler.
  unfold bind at 1. unfold gets at 1. by rewrite Hc.
Qed.

(** The other request-level failure: when the tree does not serialize the
    handler calls [WriteHeader(500)] and writes nothing. *)
Lemma packageHandler_serialization_failure `{RG : Registry}
    fuel r g pkgName pkgVersion t e :
  lastRequest g !! RequestURI r = None ->
  Vars r !! "package" = Some pkgName ->
  Vars r !! "version" = Some pkgVersion ->
  resolved fuel (mkNode pkgName pkgVersion ∅) pkgVersion = Some t ->
  MarshalIndent t = inr e ->
  exists g', packageHandler fuel newResponseWriter r g
             = Some (mkWriter ∅ (Some 500%Z) EmptyString, g').
Proof.
  intros Hc Hp Hv Ht Hm.
  rewrite (packageHandler_miss fuel _ r g pkgName pkgVersion Hc Hp Hv).
  destruct (resolved_Some _ _ _ _ Ht
              (set_rootPkg (Some (mkNode pkgName pkgVersion ∅)) g))
    as [g1 ->].
  rewrite Hm. by eexists.
Qed.

(** C6.  A failure stays with its node.  (1) A node whose metadata fetch,
    version choice or manifest fetch fails comes back, with its name and
    with no entry in [Dependencies].  (2) An expanded node returns as soon
    as each of its dependencies returns on its own, and then holds under
    every dependency name the tree the call for that dependency builds on
    its own, whatever became of the other dependencies.  (3) The handler
    answers 200 with the serialized tree whenever the resolution of the
    root returns and the tree serializes. *)
Theorem failure_locally_contained `{RG : Registry} :
  (forall fuel name c g,
     fails name c ->
     exists t g', resolveDependencies (S fuel) (mkNode name c ∅) c g
                  = Some (t, g')
                  /\ Name t = name /\ Dependencies t = ∅)
  /\ (forall fuel pkg c g v npmPkg,
        outcomeOf (Name pkg) c = Expanded v npmPkg ->
        (forall k dc, rDependencies npmPkg !! k = Some dc ->
                      is_Some (resolved fuel (mkNode k dc ∅) dc)) ->
        exists t g', resolveDependencies (S fuel) pkg c g = Some (t, g')
          /\ forall k dc, rDependencies npmPkg !! k = Some dc ->
               Dependencies t !! k = resolved fuel (mkNode k dc ∅) dc)
  /\ (forall fuel r g pkgName pkgVersion t stringified,
        lastRequest g !! RequestURI r = None ->
        Vars r !! "package" = Some pkgName ->
        Vars r !! "version" = Some pkgVersion ->
        resolved fuel (mkNode pkgName pkgVersion ∅) pkgVersion = Some t ->
        MarshalIndent t = inl stringified ->
        exists w g', packageHandler fuel newResponseWriter r g = Some (w, g')
                     /\ Status w = Some 200%Z /\ Written w = stringified).
Proof.
  split; [|split].
  - intros fuel name c g Hf.
    by apply (resolveDependencies_fails fuel (mkNode name c ∅) c g).
  - intros fuel pkg c g v npmPkg Ho Hall.
    destruct (resolveDependencies_returns fuel pkg c g v npmPkg Ho Hall)
      as [[t g'] Hr].
    exists t, g'. split; [done|]. intros k dc Hk.
    rewrite (resolveDependencies_children _ _ _ _ _ _ _ _ Ho Hr k).
    by rewrite Hk.
  - intros fuel r g pkgName pkgVersion t stringified Hc Hp Hv Ht Hm.
    rewrite (packageHandler_miss fuel _ r g pkgName pkgVersion Hc Hp Hv).
    destruct (resolved_Some _ _ _ _ Ht
                (set_rootPkg (Some (mkNode pkgName pkgVersion ∅)) g))
      as [g1 ->].
    rewrite Hm. by eexists _, _.
Qed.

(** C4.  When a request is answered with anything but the 500 of a failed
    serialization, the same request put again to the process as the first
    call left it is answered with the same status, headers and bytes,
    whatever the registry would now say and without a single registry
    call; after a 200 the bytes are those stored in [lastRequest] under the
    request URI. *)
Theorem repeated_request_served_from_cache `{RG : Registry} fuel r g w1 g1 :
  packageHandler fuel newResponseWriter r g = Some (w1, g1) ->
  Status w1 <> Some 500%Z ->
  (forall (RG' : Registry) fuel',
     exists g2,
       packageHandler (RG := RG') fuel' newResponseWriter r g1 = Some (w1, g2)
       /\ fetches g2 = fetches g1)
  /\ (Status w1 = Some 200%Z ->
      lastRequest g1 !! RequestURI r = Some (Written w1)).
Proof.
  intros H1 Hs.
  destruct (lastRequest g !! RequestURI r) as [cached|] eqn:Hc.
  { (* already in the cache *)
    rewrite (packageHandler_hit _ _ _ _ _ Hc) in H1. injection H1 as <- <-.
    split; [|done]. intros RG' fuel'. eexists. split.
    + by rewrite (packageHandler_hit (RG := RG') fuel' _ r
                    (set_goroutineCount _ g) cached Hc).
    + done. }
  destruct (Vars r !! "package") as [pkgName|] eqn:Hp; cycle 1.
  { (* no package parameter: nothing is written, nothing changes *)
    assert (Hret : forall (RG' : Registry) fuel' g0,
      lastRequest g0 !! RequestURI r = None ->
      packageHandler (RG := RG') fuel' newResponseWriter r g0
      = Some (newResponseWriter, g0)).
    { intros RG' fuel' g0 Hc0. unfold packageHandler.
      unfold bind at 1. unfold gets at 1. by rewrite Hc0, Hp. }
    rewrite (Hret _ _ _ Hc) in H1. injection H1 as <- <-.
    split; [|done]. intros RG' fuel'. exists g. by rewrite (Hret _ _ _ Hc). }
  destruct (Vars r !! "version") as [pkgVersion|] eqn:Hv; cycle 1.
  { assert (Hret : forall (RG' : Registry) fuel' g0,
      lastRequest g0 !! RequestURI r = None ->
      packageHandler (RG := RG') fuel' newResponseWriter r g0
      = Some (newResponseWriter, g0)).
    { intros RG' fuel' g0 Hc0. unfold packageHandler.
      unfold bind at 1. unfold gets at 1. by rewrite Hc0, Hp, Hv. }
    rewrite (Hret _ _ _ Hc) in H1. injection H1 as <- <-.
    split; [|done]. intros RG' fuel'. exists g. by rewrite (Hret _ _ _ Hc). }
  rewrite (packageHandler_miss fuel _ r g pkgName pkgVersion Hc Hp Hv) in H1.
  destruct (resolveDependencies fuel _ pkgVersion _) as [[t g0]|]; [|done].
  destruct (MarshalIndent t) as [stringified|e].
  - injection H1 as <- <-.
    assert (Hin : lastRequest
              (set_goroutineCount (fun n => int64_wrap (n + -1))
                 (set_lastRequest <[RequestURI r := stringified]>
                    (set_rootPkg (Some t) g0))) !! RequestURI r
            = Some stringified) by apply lookup_insert_eq.
    split; [|done]. intros RG' fuel'. eexists. split.
    + by rewrite (packageHandler_hit (RG := RG') fuel' _ r _ _ Hin).
    + done.
  - injection H1 as <- <-. by destruct Hs.
Qed.

End Handler.

(** ** The example world keeps the promises of the libraries *)

Module ExampleLaws.
Import Example.

Lemma less_spec a b :
  less a b = true <->
  (major a < major b
   \/ (major a = major b
       /\ (minor a < minor b \/ (minor a = minor b /\ patch a < patch b))))%N.
Proof.
  unfold less.
  rewrite orb_true_iff, andb_true_iff, orb_true_iff, andb_true_iff.
  rewrite !N.ltb_lt, !N.eqb_eq. tauto.
Qed.

Lemma not_after_spec a b :
  not_after a b <->
  ~ (major b < major a
     \/ (major b = major a
         /\ (minor b < minor a \/ (minor b = minor a /\ patch b < patch a))))%N.
Proof.
  unfold not_after. rewrite <- less_spec. by destruct (less b a).
Qed.

#[export] Instance not_after_total : Total not_after.
Proof. intros a b. rewrite !not_after_spec. lia. Qed.

#[export] Instance not_after_trans : Transitive not_after.
Proof. intros a b c. rewrite !not_after_spec. lia. Qed.

Lemma StronglySorted_lookup {A} (R : relation A) l i j x y :
  StronglySorted R l -> l !! i = Some x -> l !! j = Some y -> (i < j)%nat ->
  R x y.
Proof.
  intros Hs. revert i j. induction Hs as [|a l Hs IH Hall]; intros i j Hi Hj Hij.
  - by rewrite lookup_nil in Hi.
  - destruct j as [|j]; [lia|]. cbn in Hj. destruct i as [|i].
    + cbn in Hi. injection Hi as ->.
      rewrite Forall_forall in Hall. apply Hall.
      by eapply list_elem_of_lookup_2.
    + cbn in Hi. eapply (IH i j); [done..|lia].
Qed.

#[export] Instance runtime3_laws : GoRuntimeLaws.
Proof.
  split.
  - intros v. cbn. apply not_true_iff_false. rewrite less_spec. lia.
  - intros A m. done.
  - intros l. apply merge_sort_Permutation.
  - intros l i j x y Hi Hj Hij.
    apply (StronglySorted_lookup not_after (merge_sort not_after l) i j x y);
      try done.
    apply StronglySorted_merge_sort; apply _.
Qed.

#[export] Instance codec_laws : JsonLaws.
Proof.
  split. intros data v Hbad.
  cbn [Unmarshal_package json_Valid codec] in *.
  destruct (assoc data manifest_documents) as [m|] eqn:Ha.
  - exfalso. unfold known in Hbad. rewrite Ha in Hbad.
    apply orb_false_iff in Hbad as [_ Hm].
    apply bool_decide_eq_false in Hm. apply Hm. by eexists.
  - rewrite Hbad. by eexists.
Qed.

End ExampleLaws.

(** ** The example registry *)

Module Scenarios.
Import Example ExampleLaws.

(** The resolver on the second scenario of the specification. *)
Lemma highestCompatibleVersion_maximum_witness :
  (exists v, satisfying (Caret (mkV 1 0 0)) root_meta v
     /\ (forall v', satisfying (Caret (mkV 1 0 0)) root_meta v' ->
                    less v v' = false)
     /\ highestCompatibleVersion "^1.0.0" root_meta = inl (show v))
  \/ ((forall v, ~ satisfying (Caret (mkV 1 0 0)) root_meta v)
      /\ highestCompatibleVersion "^1.0.0" root_meta
         = inr (errors_New "no compatible versions found")).
Proof.
  exact (highestCompatibleVersion_maximum (GL := runtime3_laws)
           "^1.0.0" root_meta).
Defined.

Lemma highestCompatibleVersion_root :
  highestCompatibleVersion "^1.0.0" root_meta = inl "1.2.0"
  /\ highestCompatibleVersion "^2.0.0" root_meta
     = inr (errors_New "no compatible versions found")
  /\ highestCompatibleVersion ">>" root_meta
     = inr (semver_error "improper constraint: >>").
Proof. repeat split. Qed.

Lemma unparseable_versions_skipped_witness :
  (forall c, filterCompatibleVersions c root_meta
             = filterCompatibleVersions c root_meta_tagged)
  /\ (forall constraintStr,
        highestCompatibleVersion constraintStr root_meta
        = highestCompatibleVersion constraintStr root_meta_tagged).
Proof.
  apply (unparseable_versions_skipped root_meta root_meta_tagged).
  vm_compute. reflexivity.
Defined.

(** The trees of the registry, computed. *)
Lemma resolve_root :
  resolved 2 (mkNode "root" "^1.0.0" ∅) "^1.0.0"
  = Some (mkNode "root" "1.2.0" (<["leaf" := mkNode "leaf" "1.0.0" ∅]> ∅)).
Proof. vm_compute. reflexivity. Qed.

Lemma resolve_gone fuel g :
  exists g', resolveDependencies (S fuel) (mkNode "gone" "^1.0.0" ∅) "^1.0.0" g
             = Some (mkNode "gone" "^1.0.0" ∅, g').
Proof. rewrite resolveDependencies_step. by eexists. Qed.

(** C8 at a node whose metadata cannot be fetched. *)
Lemma version_field_constraint_until_resolved_witness :
  exists t g',
    resolveDependencies 1 (mkNode "gone" "^1.0.0" ∅) "^1.0.0" fresh
    = Some (t, g')
    /\ Version t = "^1.0.0".
Proof.
  destruct (resolve_gone 0 fresh) as [g' Hr].
  exists (mkNode "gone" "^1.0.0" ∅), g'. split; [exact Hr|].
  exact (version_field_constraint_until_resolved
           1 "gone" "^1.0.0" fresh _ g' Hr).
Defined.

(** C8 as stated fails: the node of [gone], whose resolution fails, comes
    back with the version [^1.0.0], not with an empty one. *)
Lemma failed_node_reports_version_counterexample :
  ~ (forall fuel name c g t g',
       resolveDependencies fuel (mkNode name c ∅) c g = Some (t, g') ->
       fails name c -> Version t = EmptyString).
Proof.
  intros Hclaim.
  destruct (resolve_gone 0 fresh) as [g' Hr].
  specialize (Hclaim 1%nat "gone" "^1.0.0" fresh _ g' Hr I).
  discriminate Hclaim.
Qed.

(** C5 on the second scenario of the specification. *)
Lemma children_keyed_by_dependency_name_witness :
  exists t g',
    resolveDependencies 2 (mkNode "root" "^1.0.0" ∅) "^1.0.0" fresh
    = Some (t, g')
    /\ keyed_by_name t
    /\ (forall v npmPkg, outcomeOf "root" "^1.0.0" = Expanded v npmPkg ->
          forall k, (is_Some (rDependencies npmPkg !! k) ->
                     exists child, Dependencies t !! k = Some child
                                   /\ Name child = k)
                    /\ (rDependencies npmPkg !! k = None ->
                        Dependencies t !! k = None)).
Proof.
  assert (Hr : is_Some (resolveDependencies 2 (mkNode "root" "^1.0.0" ∅)
                          "^1.0.0" fresh))
    by (vm_compute; eexists; reflexivity).
  destruct Hr as [[t g'] Hr]. exists t, g'. split; [exact Hr|].
  exact (children_keyed_by_dependency_name (GL := runtime3_laws)
           2 "root" "^1.0.0" fresh t g' Hr).
Defined.

(** C5 as stated fails: the child of [root] stands under the key [leaf],
    the name of the dependency. *)
Lemma fresh_identifier_keys_counterexample :
  ~ (forall fuel name c g t g',
       resolveDependencies fuel (mkNode name c ∅) c g = Some (t, g') ->
       keyed_by_fresh_identifiers t).
Proof.
  intros Hclaim.
  destruct (resolved_Some 2 (mkNode "root" "^1.0.0" ∅) "^1.0.0" _
              resolve_root fresh) as [g' Hr].
  specialize (Hclaim _ _ _ _ _ _ Hr "leaf" (mkNode "leaf" "1.0.0" ∅)).
  by apply Hclaim.
Qed.

Lemma outcome_app : outcomeOf "app" "2.0.0" = Expanded "2.0.0" app_manifest.
Proof. vm_compute. reflexivity. Qed.

Lemma resolve_app :
  resolved 2 (mkNode "app" "2.0.0" ∅) "2.0.0" = Some app_tree.
Proof. vm_compute. reflexivity. Qed.

Lemma app_dependencies_return k dc :
  rDependencies app_manifest !! k = Some dc ->
  is_Some (resolved 1 (mkNode k dc ∅) dc).
Proof.
  intros Hk. apply elem_of_map_to_list in Hk.
  assert (Hl : map_to_list (rDependencies app_manifest)
               ≡ₚ [("gone", "^1.0.0"); ("leaf", "^1.0.0");
                   ("old", "^3.0.0"); ("torn", "1.0.0")]).
  { apply map_to_list_to_map. vm_compute. apply (bool_decide_unpack _). done. }
  rewrite Hl in Hk.
  repeat (apply elem_of_cons in Hk as [[= -> ->]|Hk];
          [vm_compute; eexists; reflexivity|]).
  by apply elem_of_nil in Hk.
Qed.

(** C6 on [app]: [gone] cannot be reached, [old] has no version for
    [^3.0.0], the manifest of [torn] cannot be read, and [leaf] resolves. *)
Lemma failure_locally_contained_witness :
  (exists t g',
     resolveDependencies 1 (mkNode "torn" "1.0.0" ∅) "1.0.0" fresh
     = Some (t, g')
     /\ Name t = "torn" /\ Dependencies t = ∅)
  /\ (exists t g',
        resolveDependencies 2 (mkNode "app" "2.0.0" ∅) "2.0.0" fresh
        = Some (t, g')
        /\ forall k dc, rDependencies app_manifest !! k = Some dc ->
             Dependencies t !! k = resolved 1 (mkNode k dc ∅) dc)
  /\ (exists w g',
        packageHandler 2 newResponseWriter (request "app" "2.0.0") fresh
        = Some (w, g')
        /\ Status w = Some 200%Z /\ Written w = marshal EmptyString app_tree).
Proof.
  destruct (failure_locally_contained (GL := runtime3_laws) (RG := npm))
    as (Hnode & Hsiblings & Hrequest).
  split; [|split].
  - apply (Hnode 0%nat "torn" "1.0.0" fresh). exact I.
  - apply (Hsiblings 1%nat (mkNode "app" "2.0.0" ∅) "2.0.0" fresh
             "2.0.0" app_manifest outcome_app app_dependencies_return).
  - apply (Hrequest 2%nat (request "app" "2.0.0") fresh "app" "2.0.0"
             app_tree (marshal EmptyString app_tree));
      first [exact resolve_app | reflexivity].
Defined.

(** C4 on the first scenario of the specification. *)
Lemma repeated_request_served_from_cache_witness :
  exists w1 g1,
    packageHandler 1 newResponseWriter (request "leaf-pkg" "1.0.0") fresh
    = Some (w1, g1)
    /\ Status w1 = Some 200%Z
    /\ (forall (RG' : Registry) fuel',
          exists g2,
            packageHandler (RG := RG') fuel' newResponseWriter
              (request "leaf-pkg" "1.0.0") g1 = Some (w1, g2)
            /\ fetches g2 = fetches g1)
    /\ lastRequest g1 !! RequestURI (request "leaf-pkg" "1.0.0")
       = Some (Written w1).
Proof.
  assert (Hs : (fun x => Status x.1)
               <$> packageHandler 1 newResponseWriter
                     (request "leaf-pkg" "1.0.0") fresh
               = Some (Some 200%Z)) by (vm_compute; reflexivity).
  destruct (packageHandler 1 newResponseWriter (request "leaf-pkg" "1.0.0")
              fresh) as [[w1 g1]|] eqn:H1; [|discriminate Hs].
  injection Hs as Hs. cbn [fst] in Hs.
  exists w1, g1. split; [reflexivity|]. split; [exact Hs|].
  assert (H500 : Status w1 <> Some 500%Z) by (rewrite Hs; discriminate).
  destruct (repeated_request_served_from_cache
              1 (request "leaf-pkg" "1.0.0") fresh w1 g1 H1 H500)
    as [Hagain Hcached].
  split; [exact Hagain|exact (Hcached Hs)].
Defined.

(** C10 on [garbled], whose manifest is an HTML page. *)
Lemma malformed_manifest_is_leaf_witness :
  (forall g,
     fetchPackage "garbled" "1.0.0" g
     = Some (inl zero_npmPackageResponse,
             logged (packageUrl "garbled" "1.0.0") g))
  /\ (forall fuel c pkgMeta g,
        packageMetaOf "garbled" = inl pkgMeta ->
        highestCompatibleVersion c pkgMeta = inl "1.0.0" ->
        ~ fails "garbled" c
        /\ exists g', resolveDependencies (S fuel) (mkNode "garbled" c ∅) c g
                      = Some (mkNode "garbled" "1.0.0" ∅, g')).
Proof.
  apply (malformed_manifest_is_leaf (GL := runtime3_laws) (JL := codec_laws)
           "garbled" "1.0.0" "<html>502 Bad Gateway</html>").
  - reflexivity.
  - vm_compute. reflexivity.
Defined.

Lemma resolve_garbled :
  resolved 1 (mkNode "garbled" "^1.0.0" ∅) "^1.0.0"
  = Some (mkNode "garbled" "1.0.0" ∅).
Proof. vm_compute. reflexivity. Qed.

(** C2 on the diamond [top -> left -> shared], [top -> right -> shared].
    The claim asks for one metadata call and one manifest call for
    [shared]; the code makes two of each, one pair per path, ten calls for
    four packages, and expands [shared] under [left] and under [right]. *)
Theorem shared_dependency_fetched_per_path :
  match resolveDependencies 3 (mkNode "top" "1.0.0" ∅) "1.0.0" fresh with
  | Some (t, g) =>
      calls (url "shared") g = 2%nat
      /\ calls (url "shared/1.0.0") g = 2%nat
      /\ length (fetches g) = 10%nat
      /\ (Dependencies t !! "left" ≫= fun l => Dependencies l !! "shared")
         = Some (mkNode "shared" "1.0.0" ∅)
      /\ (Dependencies t !! "right" ≫= fun r => Dependencies r !! "shared")
         = Some (mkNode "shared" "1.0.0" ∅)
  | None => False
  end.
Proof. vm_compute. repeat split. Qed.

Lemma outcome_loop : outcomeOf "loop" "1.0.0" = Expanded "1.0.0" loop_manifest.
Proof. vm_compute. reflexivity. Qed.

Lemma range_loop : range (rDependencies loop_manifest) = [("loop", "1.0.0")].
Proof. vm_compute. reflexivity. Qed.

(** C3 on [loop], whose only version depends on [loop] itself.  The claim
    asks for a finite tree; the call for [loop] starts a call for [loop]
    before it returns, so no depth of recursion lets it return, and the
    handler never answers. *)
Theorem self_dependency_never_returns :
  (forall fuel g,
     resolveDependencies fuel (mkNode "loop" "1.0.0" ∅) "1.0.0" g = None)
  /\ (forall fuel,
        packageHandler fuel newResponseWriter (request "loop" "1.0.0") fresh
        = None).
Proof.
  assert (Hloop : forall fuel g,
    resolveDependencies fuel (mkNode "loop" "1.0.0" ∅) "1.0.0" g = None).
  { induction fuel as [|fuel IH]; intros g; [reflexivity|].
    rewrite resolveDependencies_step. cbn [Name]. rewrite outcome_loop.
    rewrite range_loop, dependencyLoop_cons. by rewrite IH. }
  split; [exact Hloop|]. intros fuel.
  rewrite (packageHandler_miss fuel newResponseWriter (request "loop" "1.0.0")
             fresh "loop" "1.0.0") by reflexivity.
  by rewrite Hloop.
Qed.


End Scenarios.

(** ** The goroutine counter ([wg_goroutine_counter.go]) *)

Section Counter.

Lemma int64_wrap_in_range z : in_int64 (int64_wrap z).
Proof.
  unfold in_int64, int64_wrap.
  pose proof (Z.mod_pos_bound (z + 2 ^ 63) (2 ^ 64)) as Hb. lia.
Qed.

Lemma int64_wrap_small z : in_int64 z -> int64_wrap z = z.
Proof.
  unfold in_int64, int64_wrap. intros Hz.
  rewrite Z.mod_small by lia. lia.
Qed.

Lemma int64_wrap_add_l z b : int64_wrap (int64_wrap z + b) = int64_wrap (z + b).
Proof.
  unfold int64_wrap. f_equal.
  replace ((z + 2 ^ 63) mod 2 ^ 64 - 2 ^ 63 + b + 2 ^ 63)%Z
    with ((z + 2 ^ 63) mod 2 ^ 64 + b)%Z by lia.
  rewrite Zplus_mod_idemp_l. f_equal. lia.
Qed.

(** X1.  After [Add(delta)] the counter is an [int64] again, [GetCount]
    reads it without changing anything, and it is the old count plus
    [delta] whenever that sum is an [int64]; otherwise the sum has wrapped
    around by a multiple of [2^64]. *)
Theorem WaitGroupCount_Add_count delta g :
  exists g',
    WaitGroupCount_Add delta g = Some (tt, g')
    /\ WaitGroupCount_GetCount g' = Some (goroutineCount g', g')
    /\ in_int64 (goroutineCount g')
    /\ (in_int64 (goroutineCount g + delta) ->
        goroutineCount g' = (goroutineCount g + delta)%Z)
    /\ ((goroutineCount g' - (goroutineCount g + delta)) mod 2 ^ 64 = 0)%Z.
Proof.
  eexists. split; [reflexivity|]. split; [reflexivity|].
  cbn [goroutineCount set_goroutineCount]. split; [|split].
  - apply int64_wrap_in_range.
  - apply int64_wrap_small.
  - unfold int64_wrap.
    rewrite (Z.mod_eq (goroutineCount g + delta + 2 ^ 63) (2 ^ 64)) by lia.
    set (q := ((goroutineCount g + delta + 2 ^ 63) / 2 ^ 64)%Z).
    replace (goroutineCount g + delta + 2 ^ 63 - 2 ^ 64 * q - 2 ^ 63
             - (goroutineCount g + delta))%Z with (- q * 2 ^ 64)%Z by lia.
    apply Z_mod_mult.
Qed.

(** X2.  Two [Add]s in a row leave the process as one [Add] of the sum
    does, wrap-around included. *)
Theorem WaitGroupCount_Add_Add a b g :
  (WaitGroupCount_Add a ;; WaitGroupCount_Add b) g
  = WaitGroupCount_Add (a + b) g.
Proof.
  unfold bind, WaitGroupCount_Add, modify, set_goroutineCount.
  cbn [lastRequest goroutineCount rootPkg fetches].
  rewrite int64_wrap_add_l. by rewrite Z.add_assoc.
Qed.

(** X3.  On a counter that holds an [int64], [Add(d)] followed by
    [Add(-d)], and [Add(1)] followed by [Done()], leave the process
    exactly as it was, also when the first step wrapped around. *)
Theorem WaitGroupCount_Add_undo d g :
  in_int64 (goroutineCount g) ->
  (WaitGroupCount_Add d ;; WaitGroupCount_Add (- d)) g = Some (tt, g)
  /\ (WaitGroupCount_Add 1 ;; WaitGroupCount_Done) g = Some (tt, g).
Proof.
  intros Hg. destruct g as [cache count root log]. cbn in Hg.
  unfold bind, WaitGroupCount_Add, WaitGroupCount_Done, modify,
    set_goroutineCount.
  cbn [lastRequest goroutineCount rootPkg fetches].
  rewrite !int64_wrap_add_l.
  replace (count + d + - d)%Z with count by lia.
  replace (count + 1 + -1)%Z with count by lia.
  by rewrite int64_wrap_small.
Qed.

End Counter.

(** ** What a resolution does to the process *)

Section Effects.
Context `{SV : Semver} `{RT : !GoRuntime} `{JS : Json} `{RG : Registry}.

(** A relation between the globals before and after that every step of a
    resolution keeps is kept by the whole resolution. *)
Lemma dependencyLoop_invariant resolve (Rel : Globals -> Globals -> Prop) :
  (forall g, Rel g g) ->
  (forall g1 g2 g3, Rel g1 g2 -> Rel g2 g3 -> Rel g1 g3) ->
  (forall dep c g d g', resolve dep c g = Some (d, g') -> Rel g g') ->
  forall deps pkg g t g',
    dependencyLoop resolve deps pkg g = Some (t, g') -> Rel g g'.
Proof.
  intros Hrefl Htrans Hres deps.
  induction deps as [|[k c] rest IH]; intros pkg g t g' Hl.
  - cbn in Hl. unfold ret in Hl. injection Hl as _ <-. apply Hrefl.
  - rewrite dependencyLoop_cons in Hl.
    destruct (resolve _ c g) as [[d g1]|] eqn:Hd; [|done].
    eapply Htrans; [by eapply Hres|by eapply IH].
Qed.

Lemma resolveDependencies_invariant (Rel : Globals -> Globals -> Prop) :
  (forall g, Rel g g) ->
  (forall g1 g2 g3, Rel g1 g2 -> Rel g2 g3 -> Rel g1 g3) ->
  (forall g u, Rel g (logged u g)) ->
  (forall g f, Rel g (set_goroutineCount f g)) ->
  forall fuel pkg c g t g',
    resolveDependencies fuel pkg c g = Some (t, g') -> Rel g g'.
Proof.
  intros Hrefl Htrans Hlog Hcount fuel.
  induction fuel as [|fuel IH]; intros pkg c g t g' Hr; [done|].
  rewrite resolveDependencies_step in Hr.
  assert (H1 : Rel g (logged (metaUrl (Name pkg))
                        (set_goroutineCount (fun n => int64_wrap (n + 1)) g)))
    by (eapply Htrans; [apply Hcount|apply Hlog]).
  destruct (outcomeOf (Name pkg) c) as [| |v|v npmPkg].
  - by injection Hr as _ <-.
  - by injection Hr as _ <-.
  - injection Hr as _ <-. eapply Htrans; [exact H1|apply Hlog].
  - destruct (dependencyLoop _ _ _ _) as [[t1 g3]|] eqn:Hl; [|done].
    injection Hr as _ <-.
    eapply Htrans; [exact H1|]. eapply Htrans; [apply Hlog|].
    eapply Htrans; [|apply Hcount].
    eapply (dependencyLoop_invariant _ Rel Hrefl Htrans); [|exact Hl].
    intros dep c' g0 d g0' Hd. by eapply IH.
Qed.

Lemma extends_refl g : extends g g [].
Proof. unfold extends. by rewrite app_nil_r. Qed.

Lemma extends_trans g1 g2 g3 l1 l2 :
  extends g1 g2 l1 -> extends g2 g3 l2 -> extends g1 g3 (l1 ++ l2).
Proof. unfold extends. intros H1 H2. by rewrite H2, H1, app_assoc. Qed.

Lemma resolveDependencies_extends fuel pkg c g t g' :
  resolveDependencies fuel pkg c g = Some (t, g') -> exists l, extends g g' l.
Proof.
  apply (resolveDependencies_invariant (fun g g' => exists l, extends g g' l)).
  - intros g0. eexists. apply extends_refl.
  - intros g1 g2 g3 [l1 H1] [l2 H2]. eexists. by eapply extends_trans.
  - intros g0 u. by exists [u].
  - intros g0 f. exists []. unfold extends. cbn. by rewrite app_nil_r.
Qed.

Lemma resolveDependencies_keeps_cache fuel pkg c g t g' :
  resolveDependencies fuel pkg c g = Some (t, g') ->
  lastRequest g' = lastRequest g.
Proof.
  apply (resolveDependencies_invariant
           (fun g g' => lastRequest g' = lastRequest g)).
  - done.
  - intros g1 g2 g3 H1 H2. congruence.
  - done.
  - done.
Qed.

(** X4.  [resolveDependencies] leaves the response cache alone: after the
    call [lastRequest] is what it was before, and the registry calls made
    before the call are followed by those of the call, none taken back. *)
Theorem resolveDependencies_frame fuel pkg c g t g' :
  resolveDependencies fuel pkg c g = Some (t, g') ->
  lastRequest g' = lastRequest g
  /\ exists l, extends g g' l.
Proof.
  intros Hr. split.
  - by eapply resolveDependencies_keeps_cache.
  - by eapply resolveDependencies_extends.
Qed.

(** X5.  [resolveDependencies] reads none of the package variables: from
    any two states of the process it builds the same tree, or returns
    from neither. *)
Theorem resolveDependencies_ignores_globals fuel pkg c g1 g2 :
  fst <$> resolveDependencies fuel pkg c g1
  = fst <$> resolveDependencies fuel pkg c g2.
Proof. by rewrite !resolveDependencies_tree. Qed.

(** X6.  The registry calls of one node come in a fixed order.  The first
    is the metadata of the package.  When the metadata cannot be used or
    no version is chosen it is the only one; otherwise the next is the
    manifest at the chosen version, and only after it come the calls for
    the dependencies.  Nothing that was in the log before is changed. *)
Theorem resolveDependencies_fetch_order fuel pkg c g t g' :
  resolveDependencies fuel pkg c g = Some (t, g') ->
  exists l,
    extends g g' (metaUrl (Name pkg) :: l)
    /\ match outcomeOf (Name pkg) c with
       | MetaFailed | VersionFailed => l = []
       | ManifestFailed v => l = [packageUrl (Name pkg) v]
       | Expanded v _ => exists l', l = packageUrl (Name pkg) v :: l'
       end.
Proof.
  destruct fuel as [|fuel]; [done|]. rewrite resolveDependencies_step.
  destruct (outcomeOf (Name pkg) c) as [| |v|v npmPkg].
  - intros [= _ <-]. by exists [].
  - intros [= _ <-]. by exists [].
  - intros [= _ <-]. exists [packageUrl (Name pkg) v]. split; [|done].
    unfold extends. cbn. by rewrite <- app_assoc.
  - destruct (dependencyLoop _ _ _ _) as [[t1 g3]|] eqn:Hl; [|done].
    intros [= _ <-].
    assert (Hext : exists l, extends
              (logged (packageUrl (Name pkg) v)
                 (logged (metaUrl (Name pkg))
                    (set_goroutineCount (fun n => int64_wrap (n + 1)) g)))
              g3 l).
    { revert Hl.
      apply (dependencyLoop_invariant _ (fun g g' => exists l, extends g g' l)).
      - intros g0. eexists. apply extends_refl.
      - intros ga gb gc [l1 H1] [l2 H2]. eexists. by eapply extends_trans.
      - intros dep c' g0 d g0'. apply resolveDependencies_extends. }
    destruct Hext as [l' Hl'].
    exists (packageUrl (Name pkg) v :: l'). split; [|by eexists].
    unfold extends in *. cbn in *. rewrite Hl'. by rewrite <- !app_assoc.
Qed.

Lemma resolveDependencies_first_call fuel pkg c g t g' :
  resolveDependencies fuel pkg c g = Some (t, g') ->
  exists l, extends g g' (metaUrl (Name pkg) :: l).
Proof.
  destruct fuel as [|fuel]; [done|]. rewrite resolveDependencies_step.
  destruct (outcomeOf (Name pkg) c) as [| |v|v npmPkg].
  - intros [= _ <-]. by exists [].
  - intros [= _ <-]. by exists [].
  - intros [= _ <-]. exists [packageUrl (Name pkg) v].
    unfold extends. cbn. by rewrite <- app_assoc.
  - destruct (dependencyLoop _ _ _ _) as [[t1 g3]|] eqn:Hl; [|done].
    intros [= _ <-].
    assert (Hext : exists l, extends
              (logged (packageUrl (Name pkg) v)
                 (logged (metaUrl (Name pkg))
                    (set_goroutineCount (fun n => int64_wrap (n + 1)) g)))
              g3 l).
    { revert Hl.
      apply (dependencyLoop_invariant _ (fun g g' => exists l, extends g g' l)).
      - intros g0. eexists. apply extends_refl.
      - intros ga gb gc [l1 H1] [l2 H2]. eexists. by eapply extends_trans.
      - intros dep c' g0 d g0'. apply resolveDependencies_extends. }
    destruct Hext as [l' Hl']. exists (packageUrl (Name pkg) v :: l').
    unfold extends in *. cbn in *. rewrite Hl'. by rewrite <- !app_assoc.
Qed.

(** The calls of a loop hold the metadata call of each of its dependencies. *)
Lemma dependencyLoop_requests fuel deps :
  forall pkg g t g',
    dependencyLoop (resolveDependencies fuel) deps pkg g = Some (t, g') ->
    exists l, extends g g' l /\ forall k c, (k, c) ∈ deps -> metaUrl k ∈ l.
Proof.
  induction deps as [|[k c] rest IH]; intros pkg g t g' Hl.
  - cbn in Hl. unfold ret in Hl. injection Hl as _ <-. exists [].
    split; [apply extends_refl|]. intros k c Hin. by apply elem_of_nil in Hin.
  - rewrite dependencyLoop_cons in Hl.
    destruct (resolveDependencies fuel _ c g) as [[d g1]|] eqn:Hd; [|done].
    apply resolveDependencies_first_call in Hd as [l1 H1]. cbn [Name] in H1.
    apply IH in Hl as (l2 & H2 & Hall).
    exists ((metaUrl k :: l1) ++ l2). split; [by eapply extends_trans|].
    intros k' c' Hin. apply elem_of_app.
    apply elem_of_cons in Hin as [[= -> ->]|Hin].
    + left. by left.
    + right. by eapply Hall.
Qed.

Context `{GL : !GoRuntimeLaws}.

(** X7.  No dependency is passed over: when a node is expanded, the calls
    made after its own two hold, for every dependency name of its
    manifest, the metadata call for that name. *)
Theorem every_dependency_is_requested fuel pkg c g t g' v npmPkg :
  outcomeOf (Name pkg) c = Expanded v npmPkg ->
  resolveDependencies fuel pkg c g = Some (t, g') ->
  exists l,
    extends g g' (metaUrl (Name pkg) :: packageUrl (Name pkg) v :: l)
    /\ forall k, is_Some (rDependencies npmPkg !! k) -> metaUrl k ∈ l.
Proof.
  intros Ho. destruct fuel as [|fuel]; [done|].
  rewrite resolveDependencies_step, Ho.
  destruct (dependencyLoop _ _ _ _) as [[t1 g3]|] eqn:Hl; [|done].
  intros [= _ <-]. apply dependencyLoop_requests in Hl as (l & Hext & Hall).
  exists l. split.
  - unfold extends in *. cbn in *. rewrite Hext. by rewrite <- !app_assoc.
  - intros k [dc Hk]. apply (Hall k dc).
    rewrite (range_perm _ _). by apply elem_of_map_to_list.
Qed.

(** What an answer of [highestCompatibleVersion] that is not an error
    says about the string. *)
Lemma highestCompatibleVersion_inl constraintStr cs versions s :
  NewConstraint constraintStr = inl cs ->
  highestCompatibleVersion constraintStr versions = inl s ->
  exists v, satisfying cs versions v
            /\ (forall v', satisfying cs versions v' -> LessThan v v' = false)
            /\ s = VersionString v.
Proof.
  unfold highestCompatibleVersion. intros ->.
  destruct (length (filterCompatibleVersions cs versions) =? 0)%nat; [done|].
  destruct (sort_Sort _ !! _) as [v|] eqn:Hlast; [|done].
  intros [= <-]. exists v. split; [|split; [|done]].
  - apply elem_of_filterCompatibleVersions.
    rewrite <- (sort_perm (filterCompatibleVersions cs versions)).
    by eapply list_elem_of_lookup_2.
  - intros v' Hv'. apply elem_of_filterCompatibleVersions in Hv'.
    by eapply sort_Sort_last.
Qed.

(** X8.  A version that a node reports after the metadata of its package
    was read and its constraint parsed is never made up: either the node
    still shows its constraint string, and then no version was chosen, or
    it shows the [String] of a version of that package which satisfies the
    constraint and is less than no other that does. *)
Theorem reported_version_satisfies_constraint
    fuel name c g t g' cs pkgMeta :
  resolveDependencies fuel (mkNode name c ∅) c g = Some (t, g') ->
  NewConstraint c = inl cs ->
  packageMetaOf name = inl pkgMeta ->
  (Version t = c /\ outcomeOf name c = VersionFailed
   /\ forall v, ~ satisfying cs pkgMeta v)
  \/ (exists v, satisfying cs pkgMeta v
        /\ (forall v', satisfying cs pkgMeta v' -> LessThan v v' = false)
        /\ Version t = VersionString v).
Proof.
  intros Hr Hc Hm. destruct fuel as [|fuel]; [done|].
  rewrite resolveDependencies_step in Hr. cbn [Name] in Hr.
  unfold outcomeOf in *. rewrite Hm in *.
  destruct (highestCompatibleVersion c pkgMeta) as [s|e] eqn:Hh.
  - right. destruct (highestCompatibleVersion_inl c cs pkgMeta s Hc Hh)
      as (v & Hv & Hmax & ->).
    exists v. split; [done|]. split; [done|].
    destruct (packageOf name (VersionString v)) as [npmPkg|e'].
    + destruct (dependencyLoop _ _ _ _) as [[t1 g3]|] eqn:Hl; [|done].
      injection Hr as <- _.
      by apply dependencyLoop_Name_Version in Hl as [_ ->].
    + by injection Hr as <- _.
  - left. injection Hr as <- _. split; [done|]. split; [done|].
    intros v Hv. apply elem_of_filterCompatibleVersions in Hv.
    revert Hh. unfold highestCompatibleVersion. rewrite Hc.
    destruct (filterCompatibleVersions cs pkgMeta) as [|x l] eqn:Hf.
    + by apply elem_of_nil in Hv.
    + cbn [length Nat.eqb].
      pose proof (Permutation_length (sort_perm (x :: l))) as Hlen.
      destruct (sort_Sort (x :: l) !! _) as [w|] eqn:Hlast; [done|].
      apply lookup_ge_None in Hlast. rewrite Hlen in Hlast.
      cbn [length] in Hlast. lia.
Qed.

(** X9.  While a call has not returned it is counted in [goroutineCount];
    a call that gives up stays counted for good.  A node whose resolution
    fails leaves the counter one higher, a node that is expanded and has
    no dependencies leaves it as it was (the counter being an [int64] that
    is not the largest one). *)
Theorem failed_node_stays_counted fuel name c g :
  in_int64 (goroutineCount g) ->
  in_int64 (goroutineCount g + 1) ->
  (fails name c ->
   exists t g', resolveDependencies (S fuel) (mkNode name c ∅) c g
                = Some (t, g')
                /\ goroutineCount g' = (goroutineCount g + 1)%Z)
  /\ (forall v npmPkg,
        outcomeOf name c = Expanded v npmPkg -> rDependencies npmPkg = ∅ ->
        exists t g', resolveDependencies (S fuel) (mkNode name c ∅) c g
                     = Some (t, g')
                     /\ goroutineCount g' = goroutineCount g).
Proof.
  intros Hnow Hrange. rewrite resolveDependencies_step. cbn [Name]. split.
  - unfold fails.
    destruct (outcomeOf name c) as [| |v|v npmPkg]; [..|done]; intros _;
      eexists _, _; (split; [reflexivity|]); cbn; by apply int64_wrap_small.
  - intros v npmPkg -> Hempty. rewrite Hempty, range_empty.
    eexists _, _. split; [reflexivity|]. cbn.
    rewrite int64_wrap_add_l.
    replace (goroutineCount g + 1 + -1)%Z with (goroutineCount g) by lia.
    by apply int64_wrap_small.
Qed.

Context `{JM : !JsonMetaLaws}.

(** X10.  Metadata that is not valid JSON makes the node fail, unlike a
    manifest that is not valid JSON: [fetchPackageMeta] returns the error
    of [json.Unmarshal], and the node comes back as it was created, after
    this one call. *)
Theorem malformed_metadata_fails_node name body :
  http_Get (metaUrl name) = Body body ->
  json_Valid body = false ->
  (forall g, exists e,
     fetchPackageMeta name g = Some (inr e, logged (metaUrl name) g))
  /\ (forall fuel c g,
        fails name c
        /\ exists g', resolveDependencies (S fuel) (mkNode name c ∅) c g
                      = Some (mkNode name c ∅, g')
                      /\ extends g g' [metaUrl name]).
Proof.
  intros Hget Hbad.
  assert (Hmeta : exists e, packageMetaOf name = inr e).
  { unfold packageMetaOf. rewrite Hget.
    destruct (Unmarshal_meta_invalid body zero_npmPackageMetaResponse Hbad)
      as (v' & e & ->). by exists e. }
  destruct Hmeta as [e Hmeta]. split.
  - intros g. exists e. by rewrite fetchPackageMeta_run, Hmeta.
  - intros fuel c g.
    assert (Ho : outcomeOf name c = MetaFailed)
      by (unfold outcomeOf; by rewrite Hmeta).
    split; [unfold fails; by rewrite Ho|].
    rewrite resolveDependencies_step. cbn [Name]. rewrite Ho.
    eexists. split; [reflexivity|]. done.
Qed.

End Effects.

(** ** What the handler answers and what it keeps *)

Section Answers.
Context `{SV : Semver} `{RT : !GoRuntime} `{JS : Json} `{RG : Registry}.

(** The handler on a request that is not in the cache, by cases. *)
Lemma packageHandler_cases fuel w r g w' g' :
  packageHandler fuel w r g = Some (w', g') ->
  (exists cached,
     lastRequest g !! RequestURI r = Some cached
     /\ w' = Write cached
               (WriteHeader 200
                  (Header_Set "Content-Type" "application/json" w))
     /\ g' = set_goroutineCount (fun n => int64_wrap (n + -1)) g)
  \/ (lastRequest g !! RequestURI r = None
      /\ (Vars r !! "package" = None \/ Vars r !! "version" = None)
      /\ w' = w /\ g' = g)
  \/ (exists pkgName pkgVersion t g1,
        lastRequest g !! RequestURI r = None
        /\ Vars r !! "package" = Some pkgName
        /\ Vars r !! "version" = Some pkgVersion
        /\ resolveDependencies fuel (mkNode pkgName pkgVersion ∅) pkgVersion
             (set_rootPkg (Some (mkNode pkgName pkgVersion ∅)) g)
           = Some (t, g1)
        /\ ((exists e, MarshalIndent t = inr e
               /\ w' = WriteHeader 500 w /\ g' = set_rootPkg (Some t) g1)
            \/ (exists stringified, MarshalIndent t = inl stringified
                  /\ w' = Write stringified
                            (WriteHeader 200
                               (Header_Set "Content-Type" "application/json" w))
                  /\ g' = set_goroutineCount (fun n => int64_wrap (n + -1))
                            (set_lastRequest <[RequestURI r := stringified]>
                               (set_rootPkg (Some t) g1))))).
Proof.
  intros H.
  destruct (lastRequest g !! RequestURI r) as [cached|] eqn:Hc.
  { rewrite (packageHandler_hit _ _ _ _ _ Hc) in H. injection H as <- <-.
    left. by exists cached. }
  right.
  destruct (Vars r !! "package") as [pkgName|] eqn:Hp; cycle 1.
  { left. revert H. unfold packageHandler.
    unfold bind at 1. unfold gets at 1. rewrite Hc, Hp.
    intros [= <- <-]. auto. }
  destruct (Vars r !! "version") as [pkgVersion|] eqn:Hv; cycle 1.
  { left. revert H. unfold packageHandler.
    unfold bind at 1. unfold gets at 1. rewrite Hc, Hp, Hv.
    intros [= <- <-]. auto. }
  right. rewrite (packageHandler_miss fuel w r g pkgName pkgVersion Hc Hp Hv) in H.
  destruct (resolveDependencies fuel _ pkgVersion _) as [[t g1]|] eqn:Hr;
    [|done].
  exists pkgName, pkgVersion, t, g1. do 4 (split; [done|]).
  destruct (MarshalIndent t) as [stringified|e]; injection H as <- <-.
  - right. by exists stringified.
  - left. by exists e.
Qed.


(** X11.  A fresh writer leaves the handler in one of three forms and no
    other: untouched (a parameter is missing, and then the process is
    untouched too), with status 500 and neither header nor body (the
    cache is then as it was), or with status 200, the JSON content type
    and a body, and then that body is what the cache holds for the
    request URI. *)
Theorem packageHandler_answers fuel r g w g' :
  packageHandler fuel newResponseWriter r g = Some (w, g') ->
  (w = untouched /\ g' = g
   /\ (Vars r !! "package" = None \/ Vars r !! "version" = None))
  \/ (w = serverError /\ lastRequest g' = lastRequest g)
  \/ (exists bytes, w = okJson bytes
                    /\ lastRequest g' !! RequestURI r = Some bytes).
Proof.
  intros H. apply packageHandler_cases in H
    as [(cached & Hc & -> & ->)
       |[(Hc & Hmiss & -> & ->)
        |(pkgName & pkgVersion & t & g1 & Hc & Hp & Hv & Hr
          & [(e & Hm & -> & ->)|(s & Hm & -> & ->)])]].
  - right. right. by exists cached.
  - left. done.
  - right. left. split; [done|].
    apply resolveDependencies_keeps_cache in Hr as Hl. exact Hl.
  - right. right. exists s. split; [done|]. apply lookup_insert_eq.
Qed.

(** X12.  The handler never drops or replaces a cached response: every
    entry of [lastRequest] is still there, unchanged, after any call, and
    only the entry of the request URI can be new. *)
Theorem packageHandler_cache_grows fuel w r g w' g' :
  packageHandler fuel w r g = Some (w', g') ->
  lastRequest g ⊆ lastRequest g'
  /\ forall u, u <> RequestURI r -> lastRequest g' !! u = lastRequest g !! u.
Proof.
  intros H. apply packageHandler_cases in H
    as [(cached & Hc & -> & ->)
       |[(Hc & Hmiss & -> & ->)
        |(pkgName & pkgVersion & t & g1 & Hc & Hp & Hv & Hr
          & [(e & Hm & -> & ->)|(s & Hm & -> & ->)])]];
    try done.
  - apply resolveDependencies_keeps_cache in Hr as Hl. cbn in *.
    by rewrite Hl.
  - apply resolveDependencies_keeps_cache in Hr as Hl. cbn in *.
    rewrite Hl. split.
    + by apply insert_subseteq.
    + intros u Hu. by rewrite lookup_insert_ne.
Qed.

(** X13.  After a request that had to be resolved, [rootPkg] holds the
    tree of that request: its name is the requested name, it is the tree
    the resolution builds from the node (name, version as given), and a
    200 answer carries exactly its serialization. *)
Theorem packageHandler_serves_rootPkg fuel r g w g' pkgName pkgVersion :
  lastRequest g !! RequestURI r = None ->
  Vars r !! "package" = Some pkgName ->
  Vars r !! "version" = Some pkgVersion ->
  packageHandler fuel newResponseWriter r g = Some (w, g') ->
  exists t,
    rootPkg g' = Some t
    /\ Name t = pkgName
    /\ resolved fuel (mkNode pkgName pkgVersion ∅) pkgVersion = Some t
    /\ ((w = serverError /\ exists e, MarshalIndent t = inr e)
        \/ (w = okJson (Written w) /\ MarshalIndent t = inl (Written w))).
Proof.
  intros Hc Hp Hv H. apply packageHandler_cases in H
    as [(cached & Hc' & _)
       |[(_ & [Hp'|Hv'] & _)
        |(pkgName' & pkgVersion' & t & g1 & _ & Hp' & Hv' & Hr & Hout)]];
    try congruence.
  assert (pkgName' = pkgName) as -> by congruence.
  assert (pkgVersion' = pkgVersion) as -> by congruence.
  exists t.
  pose proof (resolveDependencies_Name _ _ _ _ _ _ Hr) as Hn.
  pose proof (resolveDependencies_resolved _ _ _ _ _ _ Hr) as Hres.
  destruct Hout as [(e & Hm & -> & ->)|(s & Hm & -> & ->)].
  - repeat split; try done. left. split; [done|by exists e].
  - repeat split; try done. right. done.
Qed.

(** X14.  [New()] forgets every cached response: the first request with
    both parameters that follows it goes to the registry, starting with
    the metadata of the requested package, whatever was cached before. *)
Theorem New_forgets_cache fuel r g w g' pkgName pkgVersion :
  Vars r !! "package" = Some pkgName ->
  Vars r !! "version" = Some pkgVersion ->
  (New ;; packageHandler fuel newResponseWriter r) g = Some (w, g') ->
  exists l, extends g g' (metaUrl pkgName :: l).
Proof.
  intros Hp Hv. unfold bind at 1, New.
  unfold bind at 1. unfold modify at 1 2.
  set (g0 := set_lastRequest _ _). intros H.
  assert (Hc : lastRequest g0 !! RequestURI r = None) by apply lookup_empty.
  apply packageHandler_cases in H
    as [(cached & Hc' & _)
       |[(_ & [Hp'|Hv'] & _)
        |(pkgName' & pkgVersion' & t & g1 & _ & Hp' & Hv' & Hr & Hout)]];
    try congruence.
  assert (pkgName' = pkgName) as -> by congruence.
  apply resolveDependencies_first_call in Hr as [l Hl]. cbn [Name] in Hl.
  exists l. unfold extends in *.
  destruct Hout as [(e & Hm & -> & ->)|(s & Hm & -> & ->)]; exact Hl.
Qed.

End Answers.

(** ** The further properties on the example registry *)

Module MoreScenarios.
Import Example ExampleLaws Outage.

#[export] Instance codec_meta_laws : JsonMetaLaws.
Proof.
  split. intros data v Hbad.
  cbn [Unmarshal_meta json_Valid codec] in *.
  destruct (assoc data meta_documents) as [m|] eqn:Ha.
  - exfalso. unfold known in Hbad. rewrite Ha in Hbad.
    apply orb_false_iff in Hbad as [Hm _].
    apply bool_decide_eq_false in Hm. apply Hm. by eexists.
  - rewrite Hbad. by eexists _, _.
Qed.

Lemma WaitGroupCount_Add_count_witness :
  exists g',
    WaitGroupCount_Add 5 fresh = Some (tt, g') /\ goroutineCount g' = 5%Z.
Proof.
  destruct (WaitGroupCount_Add_count 5 fresh)
    as (g' & Hadd & _ & _ & Hsmall & _).
  exists g'. split; [exact Hadd|]. apply Hsmall.
  unfold in_int64. cbn. lia.
Defined.

Lemma WaitGroupCount_Add_undo_witness :
  (WaitGroupCount_Add 1 ;; WaitGroupCount_Add (- (1))) saturated
  = Some (tt, saturated)
  /\ (WaitGroupCount_Add 1 ;; WaitGroupCount_Done) saturated
     = Some (tt, saturated).
Proof.
  apply (WaitGroupCount_Add_undo 1 saturated). unfold in_int64. cbn. lia.
Defined.

Lemma resolveDependencies_frame_witness :
  exists w1 g1 t g',
    served = Some (w1, g1)
    /\ resolveDependencies 2 (mkNode "root" "^1.0.0" ∅) "^1.0.0" g1
       = Some (t, g')
    /\ lastRequest g' = lastRequest g1
    /\ exists l, extends g1 g' l.
Proof.
  assert (Hr : is_Some (served ≫= fun x =>
            resolveDependencies 2 (mkNode "root" "^1.0.0" ∅) "^1.0.0" x.2))
    by (vm_compute; eexists; reflexivity).
  destruct served as [[w1 g1]|] eqn:Hs; [|by destruct Hr as [? [=]]].
  cbn [mbind option_bind snd] in Hr. destruct Hr as [[t g'] Hr].
  exists w1, g1, t, g'. split; [reflexivity|]. split; [exact Hr|].
  exact (resolveDependencies_frame 2 _ "^1.0.0" g1 t g' Hr).
Defined.

Lemma resolveDependencies_fetch_order_witness :
  exists t g' l,
    resolveDependencies 1 (mkNode "torn" "1.0.0" ∅) "1.0.0" fresh
    = Some (t, g')
    /\ extends fresh g' (metaUrl "torn" :: l)
    /\ l = [packageUrl "torn" "1.0.0"].
Proof.
  assert (Hr : is_Some (resolveDependencies 1 (mkNode "torn" "1.0.0" ∅)
                          "1.0.0" fresh))
    by (vm_compute; eexists; reflexivity).
  destruct Hr as [[t g'] Hr].
  destruct (resolveDependencies_fetch_order 1 _ "1.0.0" fresh t g' Hr)
    as (l & Hext & Hl).
  exists t, g', l. split; [exact Hr|]. split; [exact Hext|exact Hl].
Defined.

Lemma outcome_of_app :
  outcomeOf "app" "2.0.0" = Expanded "2.0.0" app_manifest.
Proof. vm_compute. reflexivity. Qed.

Lemma every_dependency_is_requested_witness :
  exists t g' l,
    resolveDependencies 2 (mkNode "app" "2.0.0" ∅) "2.0.0" fresh
    = Some (t, g')
    /\ extends fresh g' (metaUrl "app" :: packageUrl "app" "2.0.0" :: l)
    /\ forall k, is_Some (rDependencies app_manifest !! k) -> metaUrl k ∈ l.
Proof.
  assert (Hr : is_Some (resolveDependencies 2 (mkNode "app" "2.0.0" ∅)
                          "2.0.0" fresh))
    by (vm_compute; eexists; reflexivity).
  destruct Hr as [[t g'] Hr].
  destruct (every_dependency_is_requested (GL := runtime3_laws)
              2 (mkNode "app" "2.0.0" ∅) "2.0.0" fresh t g' "2.0.0"
              app_manifest outcome_of_app Hr) as (l & Hext & Hall).
  exists t, g', l. split; [exact Hr|]. split; [exact Hext|exact Hall].
Defined.

Lemma packageMetaOf_root : packageMetaOf "root" = inl root_meta.
Proof. vm_compute. reflexivity. Qed.

Lemma reported_version_satisfies_constraint_witness :
  exists t g',
    resolveDependencies 2 (mkNode "root" "^1.0.0" ∅) "^1.0.0" fresh
    = Some (t, g')
    /\ ((Version t = "^1.0.0" /\ outcomeOf "root" "^1.0.0" = VersionFailed
         /\ forall v, ~ satisfying (Caret (mkV 1 0 0)) root_meta v)
        \/ (exists v, satisfying (Caret (mkV 1 0 0)) root_meta v
              /\ (forall v', satisfying (Caret (mkV 1 0 0)) root_meta v' ->
                             less v v' = false)
              /\ Version t = show v)).
Proof.
  assert (Hr : is_Some (resolveDependencies 2 (mkNode "root" "^1.0.0" ∅)
                          "^1.0.0" fresh))
    by (vm_compute; eexists; reflexivity).
  destruct Hr as [[t g'] Hr]. exists t, g'. split; [exact Hr|].
  exact (reported_version_satisfies_constraint (GL := runtime3_laws)
           2 "root" "^1.0.0" fresh t g' (Caret (mkV 1 0 0)) root_meta
           Hr eq_refl packageMetaOf_root).
Defined.

Lemma outcome_leaf :
  outcomeOf "leaf" "^1.0.0"
  = Expanded "1.0.0" (manifest_value "leaf" "1.0.0" []).
Proof. vm_compute. reflexivity. Qed.

Lemma failed_node_stays_counted_witness :
  (exists t g',
     resolveDependencies 1 (mkNode "gone" "^1.0.0" ∅) "^1.0.0" fresh
     = Some (t, g')
     /\ goroutineCount g' = 1%Z)
  /\ (exists t g',
        resolveDependencies 1 (mkNode "leaf" "^1.0.0" ∅) "^1.0.0" fresh
        = Some (t, g')
        /\ goroutineCount g' = 0%Z).
Proof.
  assert (H0 : in_int64 (goroutineCount fresh)) by (unfold in_int64; cbn; lia).
  assert (H1 : in_int64 (goroutineCount fresh + 1))
    by (unfold in_int64; cbn; lia).
  split.
  - apply (failed_node_stays_counted (GL := runtime3_laws)
             0 "gone" "^1.0.0" fresh H0 H1). exact I.
  - apply (proj2 (failed_node_stays_counted (GL := runtime3_laws)
                    0 "leaf" "^1.0.0" fresh H0 H1)
             "1.0.0" (manifest_value "leaf" "1.0.0" []) outcome_leaf).
    reflexivity.
Defined.

Lemma malformed_metadata_fails_node_witness :
  (forall g, exists e,
     fetchPackageMeta (RG := registry) "broken" g
     = Some (inr e, logged (metaUrl "broken") g))
  /\ (forall fuel c g,
        fails (RG := registry) "broken" c
        /\ exists g',
             resolveDependencies (RG := registry) (S fuel)
               (mkNode "broken" c ∅) c g
             = Some (mkNode "broken" c ∅, g')
             /\ extends g g' [metaUrl "broken"]).
Proof.
  apply (malformed_metadata_fails_node (RG := registry) (JM := codec_meta_laws)
           "broken" "503 Service Unavailable").
  - reflexivity.
  - vm_compute. reflexivity.
Defined.



Lemma packageHandler_answers_witness :
  exists w g',
    packageHandler 1 newResponseWriter (request "leaf-pkg" "1.0.0") fresh
    = Some (w, g')
    /\ ((w = untouched /\ g' = fresh
         /\ (Vars (request "leaf-pkg" "1.0.0") !! "package" = None
             \/ Vars (request "leaf-pkg" "1.0.0") !! "version" = None))
        \/ (w = serverError /\ lastRequest g' = lastRequest fresh)
        \/ (exists bytes,
              w = okJson bytes
              /\ lastRequest g' !! RequestURI (request "leaf-pkg" "1.0.0")
                 = Some bytes)).
Proof.
  assert (Hr : is_Some served) by (vm_compute; eexists; reflexivity).
  destruct Hr as [[w g'] Hr]. exists w, g'. split; [exact Hr|].
  exact (packageHandler_answers 1 (request "leaf-pkg" "1.0.0") fresh w g' Hr).
Defined.

Lemma packageHandler_cache_grows_witness :
  exists w g',
    packageHandler 1 newResponseWriter (request "leaf-pkg" "1.0.0") fresh
    = Some (w, g')
    /\ lastRequest fresh ⊆ lastRequest g'
    /\ forall u, u <> RequestURI (request "leaf-pkg" "1.0.0") ->
                 lastRequest g' !! u = lastRequest fresh !! u.
Proof.
  assert (Hr : is_Some served) by (vm_compute; eexists; reflexivity).
  destruct Hr as [[w g'] Hr]. exists w, g'. split; [exact Hr|].
  exact (packageHandler_cache_grows 1 newResponseWriter
           (request "leaf-pkg" "1.0.0") fresh w g' Hr).
Defined.

Lemma packageHandler_serves_rootPkg_witness :
  exists w g' t,
    packageHandler 1 newResponseWriter (request "leaf-pkg" "1.0.0") fresh
    = Some (w, g')
    /\ rootPkg g' = Some t
    /\ Name t = "leaf-pkg"
    /\ resolved 1 (mkNode "leaf-pkg" "1.0.0" ∅) "1.0.0" = Some t
    /\ ((w = serverError /\ exists e, MarshalIndent t = inr e)
        \/ (w = okJson (Written w) /\ MarshalIndent t = inl (Written w))).
Proof.
  assert (Hr : is_Some served) by (vm_compute; eexists; reflexivity).
  destruct Hr as [[w g'] Hr].
  destruct (packageHandler_serves_rootPkg 1 (request "leaf-pkg" "1.0.0")
              fresh w g' "leaf-pkg" "1.0.0" eq_refl eq_refl eq_refl Hr)
    as (t & Ht).
  exists w, g', t. split; [exact Hr|exact Ht].
Defined.

Lemma New_forgets_cache_witness :
  exists w1 g1 w2 g2 l,
    served = Some (w1, g1)
    /\ is_Some (lastRequest g1 !! RequestURI (request "leaf-pkg" "1.0.0"))
    /\ (New ;; packageHandler 1 newResponseWriter (request "leaf-pkg" "1.0.0"))
         g1 = Some (w2, g2)
    /\ extends g1 g2 (metaUrl "leaf-pkg" :: l).
Proof.
  assert (Hr : is_Some (served ≫= fun x =>
            (New ;; packageHandler 1 newResponseWriter
                      (request "leaf-pkg" "1.0.0")) x.2))
    by (vm_compute; eexists; reflexivity).
  destruct served as [[w1 g1]|] eqn:Hs; [|by destruct Hr as [? [=]]].
  cbn [mbind option_bind snd] in Hr. destruct Hr as [[w2 g2] Hr].
  destruct (New_forgets_cache 1 (request "leaf-pkg" "1.0.0") g1 w2 g2
              "leaf-pkg" "1.0.0" eq_refl eq_refl Hr) as [l Hl].
  exists w1, g1, w2, g2, l. split; [reflexivity|]. split; [|split; [exact Hr|exact Hl]].
  destruct (packageHandler_answers 1 (request "leaf-pkg" "1.0.0") fresh w1 g1 Hs)
    as [(_ & _ & [Hp|Hv])|[(Hw & _)|(bytes & _ & Hb)]].
  - discriminate Hp.
  - discriminate Hv.
  - exfalso. revert Hw.
    assert (Hst : (fun x => Status x.1) <$> served = Some (Some 200%Z))
      by (vm_compute; reflexivity).
    rewrite Hs in Hst. injection Hst as Hst. cbn in Hst. intros ->.
    discriminate Hst.
  - by eexists.
Defined.

End MoreScenarios.
